(** * CARLS knowledge bank service: session registry, Lookup and Update

    A shallow embedding of [research/carls/knowledge_bank_grpc_service.cc]
    and of the client-side scenarios exercised by
    [research/carls/dynamic_embedding_manager_test.cc].

    The service keeps two hash maps keyed by the session handle, [es_map_]
    (embedding stores) and [gd_map_] (optimizers).  The stores and the
    optimizers are collaborators behind interfaces; they enter the model as
    type classes.  Every handler is a state transformer that may leave early
    with a [grpc::Status]. *)

From Stdlib Require Import ZArith.
From Stdlib Require Import Floats.SpecFloat.
From Ceres Require Import Ceres.
From stdpp Require Import base option list strings gmap pretty.

(** ** Protocol buffers and status values *)

(** A proto [float] is an IEEE 754 binary32 number. *)
Abbreviation float := spec_float (only parsing).

(** [EmbeddingVectorProto]: the repeated float field [value]. *)
Record EmbeddingVectorProto := { value : list float }.

(** What a batch lookup yields per key,
    [absl::variant<EmbeddingVectorProto, std::string>]: the vector, or the
    text of an error. *)
Abbreviation value_or_error :=
  (EmbeddingVectorProto + string)%type (only parsing).

Inductive StatusCode := OK | INVALID_ARGUMENT | INTERNAL.

Record Status := { error_code : StatusCode; error_message : string }.

Definition Status_OK : Status := {| error_code := OK; error_message := "" |}.

Module LookupRequest.
Record t := { session_handle : string; key : list string; update : bool }.
End LookupRequest.

Module LookupResponse.
Record t := { embedding_table : gmap string EmbeddingVectorProto }.
End LookupResponse.

(** The two proto maps of an [UpdateRequest] are kept as the sequence of
    pairs their iteration yields: an empty sequence is an empty map. *)
Module UpdateRequest.
Record t := {
  session_handle : string;
  values : list (string * EmbeddingVectorProto);
  gradients : list (string * EmbeddingVectorProto)
}.
End UpdateRequest.

Module UpdateResponse.
Record t := {}.
End UpdateResponse.

Module StartSessionResponse.
Record t := { session_handle : string }.
End StartSessionResponse.

(** ** The collaborators *)

(** [KnowledgeBank] with its factory.  A store is a value; a method that
    mutates the store returns the new one.  [KnowledgeBankFactory_Make]
    yields [None] where the C++ factory returns [nullptr]. *)
Class KnowledgeBankInterface := {
  KnowledgeBankConfig : Type;
  KnowledgeBank : Type;
  KnowledgeBankFactory_Make : KnowledgeBankConfig → Z → option KnowledgeBank;
  BatchLookup : KnowledgeBank → list string → list value_or_error;
  BatchLookupWithUpdate :
    KnowledgeBank → list string → KnowledgeBank * list value_or_error;
  BatchUpdate :
    KnowledgeBank → list string → list EmbeddingVectorProto → KnowledgeBank
}.

(** [GradientDescentOptimizer].  [Apply] returns the optimizer after the
    call, the updated embeddings (empty on failure) and the error text it
    stored through its [error_msg] argument. *)
Class GradientDescentInterface := {
  GradientDescentConfig : Type;
  GradientDescentOptimizer : Type;
  GradientDescentOptimizer_Create :
    Z → GradientDescentConfig → option GradientDescentOptimizer;
  Apply :
    GradientDescentOptimizer → list EmbeddingVectorProto →
    list EmbeddingVectorProto →
    GradientDescentOptimizer * list EmbeddingVectorProto * string
}.

(** [gradient_descent_config] is an optional message field:
    [has_gradient_descent_config()] holds when it is [Some]. *)
Module DynamicEmbeddingConfig.
Record t `{KnowledgeBankInterface} `{GradientDescentInterface} := {
  embedding_dimension : Z;
  knowledge_bank_config : KnowledgeBankConfig;
  gradient_descent_config : option GradientDescentConfig
}.
End DynamicEmbeddingConfig.

Module StartSessionRequest.
Record t `{KnowledgeBankInterface} `{GradientDescentInterface} := {
  name : string;
  config : DynamicEmbeddingConfig.t
}.
End StartSessionRequest.

(** The generated proto code that turns a [StartSessionRequest] into the
    session handle and back.  [ParseFromString] is total: the service
    ignores its boolean result and reads whatever the message holds. *)
Class SessionCodec `{KnowledgeBankInterface} `{GradientDescentInterface} := {
  SerializeAsString : StartSessionRequest.t → string;
  ParseFromString : string → StartSessionRequest.t
}.

(** ** The service *)

Section Service.
Context `{KB : KnowledgeBankInterface} `{GD : GradientDescentInterface}.
Context `{Codec : !SessionCodec}.

(** One call made to a collaborator.  The list of calls is a history
    variable: the service appends to it and never reads it. *)
Inductive Call :=
| Make_call (cfg : KnowledgeBankConfig) (dim : Z)
| Create_call (dim : Z) (cfg : GradientDescentConfig)
| BatchLookup_call (h : string) (keys : list string)
| BatchLookupWithUpdate_call (h : string) (keys : list string)
| BatchUpdate_call (h : string) (keys : list string)
    (vals : list EmbeddingVectorProto)
| Apply_call (h : string) (embeddings gradients : list EmbeddingVectorProto).

Record KnowledgeBankGrpcServiceImpl := {
  es_map_ : gmap string KnowledgeBank;
  gd_map_ : gmap string GradientDescentOptimizer;
  calls : list Call
}.

Definition KnowledgeBankGrpcServiceImpl_new : KnowledgeBankGrpcServiceImpl :=
  {| es_map_ := ∅; gd_map_ := ∅; calls := [] |}.

(** How a handler ends: it runs to its end with a result, it leaves with
    a [return Status(...)], or it dereferences the null pointer that
    [operator[]] has just inserted for a missing handle. *)
Inductive outcome (A : Type) :=
| Done (a : A)
| Exit (s : Status)
| Crash.
Global Arguments Done {A} a.
Global Arguments Exit {A} s.
Global Arguments Crash {A}.

Definition rpc (A : Type) : Type :=
  KnowledgeBankGrpcServiceImpl → outcome A * KnowledgeBankGrpcServiceImpl.

Definition ret {A} (a : A) : rpc A := λ s, (Done a, s).

Definition bind {A B} (m : rpc A) (f : A → rpc B) : rpc B :=
  λ s, match m s with
       | (Done a, s') => f a s'
       | (Exit e, s') => (Exit e, s')
       | (Crash, s') => (Crash, s')
       end.

Definition exit_with {A} (c : StatusCode) (msg : string) : rpc A :=
  λ s, (Exit {| error_code := c; error_message := msg |}, s).

Definition crash {A} : rpc A := λ s, (Crash, s).

Definition get : rpc KnowledgeBankGrpcServiceImpl := λ s, (Done s, s).

Definition record (c : Call) : rpc unit :=
  λ s, (Done (), {| es_map_ := es_map_ s; gd_map_ := gd_map_ s;
                    calls := calls s ++ [c] |}).

Definition set_es (h : string) (kb : KnowledgeBank) : rpc unit :=
  λ s, (Done (), {| es_map_ := <[h := kb]> (es_map_ s); gd_map_ := gd_map_ s;
                    calls := calls s |}).

Definition set_gd (h : string) (gd : GradientDescentOptimizer) : rpc unit :=
  λ s, (Done (), {| es_map_ := es_map_ s; gd_map_ := <[h := gd]> (gd_map_ s);
                    calls := calls s |}).

Local Notation "x ← m ; k" := (bind m (λ x, k))
  (at level 20, m at level 100, k at level 200, only parsing).
Local Notation "m ;; k" := (bind m (λ _, k))
  (at level 100, k at level 200, right associativity, only parsing).

(** [es_map_[h]->...]: the store registered under [h]. *)
Definition es_at (h : string) : rpc KnowledgeBank :=
  s ← get;
  match es_map_ s !! h with
  | Some kb => ret kb
  | None => crash
  end.

(** [gd_map_[h]->...]: the optimizer registered under [h]. *)
Definition gd_at (h : string) : rpc GradientDescentOptimizer :=
  s ← get;
  match gd_map_ s !! h with
  | Some gd => ret gd
  | None => crash
  end.

Definition es_contains (h : string) : rpc bool :=
  s ← get; ret (match es_map_ s !! h with Some _ => true | None => false end).

Definition gd_contains (h : string) : rpc bool :=
  s ← get; ret (match gd_map_ s !! h with Some _ => true | None => false end).

Definition es_BatchLookup (h : string) (keys : list string)
    : rpc (list value_or_error) :=
  kb ← es_at h;
  record (BatchLookup_call h keys);;
  ret (BatchLookup kb keys).

Definition es_BatchLookupWithUpdate (h : string) (keys : list string)
    : rpc (list value_or_error) :=
  kb ← es_at h;
  record (BatchLookupWithUpdate_call h keys);;
  let '(kb', value_or_errors) := BatchLookupWithUpdate kb keys in
  set_es h kb';;
  ret value_or_errors.

Definition es_BatchUpdate (h : string) (keys : list string)
    (vals : list EmbeddingVectorProto) : rpc unit :=
  kb ← es_at h;
  record (BatchUpdate_call h keys vals);;
  set_es h (BatchUpdate kb keys vals).

Definition gd_Apply (h : string)
    (embeddings gradients : list EmbeddingVectorProto)
    : rpc (list EmbeddingVectorProto * string) :=
  gd ← gd_at h;
  record (Apply_call h embeddings gradients);;
  let '(gd', updated_embeddings, error_msg) :=
    Apply gd embeddings gradients in
  set_gd h gd';;
  ret (updated_embeddings, error_msg).

(** [KnowledgeBankGrpcServiceImpl::StartSessionIfNecessary]. *)
Definition StartSessionIfNecessary (session_handle : string) : rpc unit :=
  let request := ParseFromString session_handle in
  let config := StartSessionRequest.config request in
  present ← es_contains session_handle;
  (if negb present then
     record (Make_call (DynamicEmbeddingConfig.knowledge_bank_config config)
               (DynamicEmbeddingConfig.embedding_dimension config));;
     match KnowledgeBankFactory_Make
             (DynamicEmbeddingConfig.knowledge_bank_config config)
             (DynamicEmbeddingConfig.embedding_dimension config) with
     | None => exit_with INTERNAL "Creating KnowledgeBank failed."
     | Some knowledge_bank => set_es session_handle knowledge_bank
     end
   else ret ());;
  has_optimizer ← gd_contains session_handle;
  match DynamicEmbeddingConfig.gradient_descent_config config with
  | Some gd_config =>
      if negb has_optimizer then
        record (Create_call
                  (DynamicEmbeddingConfig.embedding_dimension config)
                  gd_config);;
        match GradientDescentOptimizer_Create
                (DynamicEmbeddingConfig.embedding_dimension config)
                gd_config with
        | None => exit_with INTERNAL "Creating GradientDescentOptimizer failed."
        | Some optimizer => set_gd session_handle optimizer
        end
      else ret ()
  | None => ret ()
  end.

(** [KnowledgeBankGrpcServiceImpl::StartSession]. *)
Definition StartSession (request : StartSessionRequest.t)
    : rpc StartSessionResponse.t :=
  if decide (StartSessionRequest.name request = "") then
    exit_with INVALID_ARGUMENT "Name is empty."
  else
    let session_handle := SerializeAsString request in
    StartSessionIfNecessary session_handle;;
    ret {| StartSessionResponse.session_handle := session_handle |}.

(** The loop of [Lookup] over [i = 0 .. keys.size() - 1]: a value found at
    index [i] is stored under [request->key(i)], an error is skipped. *)
Definition fill_embedding_table (keys : list string)
    (value_or_errors : list value_or_error)
    : gmap string EmbeddingVectorProto :=
  foldl (λ embedding_table i,
           match value_or_errors !! i, keys !! i with
           | Some (inl v), Some k => <[k := v]> embedding_table
           | _, _ => embedding_table
           end)
        ∅ (seq 0 (length keys)).

(** [KnowledgeBankGrpcServiceImpl::Lookup]. *)
Definition Lookup (request : LookupRequest.t) : rpc LookupResponse.t :=
  let session_handle := LookupRequest.session_handle request in
  if decide (session_handle = "") then
    exit_with INVALID_ARGUMENT "session_handle is empty."
  else if decide (LookupRequest.key request = []) then
    exit_with INVALID_ARGUMENT "Empty input keys."
  else
    StartSessionIfNecessary session_handle;;
    let keys := LookupRequest.key request in
    value_or_errors ←
      (if LookupRequest.update request
       then es_BatchLookupWithUpdate session_handle keys
       else es_BatchLookup session_handle keys);
    if decide (length value_or_errors ≠ length keys) then
      exit_with INTERNAL "Inconsistent result returned by BatchLookup()"
    else
      ret {| LookupResponse.embedding_table :=
               fill_embedding_table keys value_or_errors |}.

(** The loop of the gradient branch over [i = 0 .. keys.size() - 1]: the
    key and the vector of every successful fetch are pushed onto
    [valid_keys] and [embeddings]. *)
Definition collect_valid (keys : list string)
    (value_or_errors : list value_or_error)
    : list string * list EmbeddingVectorProto :=
  foldl (λ (acc : list string * list EmbeddingVectorProto) (i : nat),
           match value_or_errors !! i, keys !! i with
           | Some (inl v), Some k => (acc.1 ++ [k], acc.2 ++ [v])
           | _, _ => acc
           end)
        ([], []) (seq 0 (length keys)).

(** The values branch of [Update]. *)
Definition Update_values (request : UpdateRequest.t) : rpc unit :=
  let session_handle := UpdateRequest.session_handle request in
  if decide (UpdateRequest.values request = []) then ret ()
  else
    let keys := (UpdateRequest.values request).*1 in
    let values := (UpdateRequest.values request).*2 in
    es_BatchUpdate session_handle keys values.

(** The gradients branch of [Update]. *)
Definition Update_gradients (request : UpdateRequest.t) : rpc unit :=
  let session_handle := UpdateRequest.session_handle request in
  if decide (UpdateRequest.gradients request = []) then ret ()
  else
    let keys := (UpdateRequest.gradients request).*1 in
    let gradients := (UpdateRequest.gradients request).*2 in
    has_optimizer ← gd_contains session_handle;
    if negb has_optimizer then
      exit_with INTERNAL
        ("Optimizer is not created, did you forget to add " +:+
         "gradient_descent_config in DynamicEmbeddingConfig?")
    else
      (* Step One: find the embeddings of given keys. *)
      value_or_errors ← es_BatchLookup session_handle keys;
      if decide (length value_or_errors ≠ length keys) then
        exit_with INTERNAL "Inconsistent result returned by BatchLookup()"
      else
        let '(valid_keys, embeddings) := collect_valid keys value_or_errors in
        if decide (valid_keys = []) then
          exit_with INTERNAL "No valid keys for gradient update."
        else
          (* Step Two: apply gradient update. *)
          applied ← gd_Apply session_handle embeddings gradients;
          let '(updated_embeddings, error_msg) := applied in
          if decide (updated_embeddings = []) then
            exit_with INTERNAL
              ("Applying gradient update returned error: " +:+ error_msg)
          else
            (* Step Three: update the embeddings. *)
            es_BatchUpdate session_handle valid_keys updated_embeddings.

(** [KnowledgeBankGrpcServiceImpl::Update]. *)
Definition Update (request : UpdateRequest.t) : rpc UpdateResponse.t :=
  let session_handle := UpdateRequest.session_handle request in
  if decide (session_handle = "") then
    exit_with INVALID_ARGUMENT "session_handle is empty."
  else if decide (UpdateRequest.values request = [] ∧
                  UpdateRequest.gradients request = []) then
    exit_with INVALID_ARGUMENT "input is empty."
  else
    StartSessionIfNecessary session_handle;;
    Update_values request;;
    Update_gradients request;;
    ret UpdateResponse.Build_t.

(** [KnowledgeBankGrpcServiceImpl::KnowledgeBankSize]. *)
Definition KnowledgeBankSize (s : KnowledgeBankGrpcServiceImpl) : nat :=
  size (es_map_ s).

End Service.

(** ** Binary32 arithmetic *)

Module F32.
Definition prec : Z := 24.
Definition emax : Z := 128.
Definition zero : float := S754_zero false.
Definition of_Z (z : Z) : float := binary_normalize prec emax z 0 false.
Definition mul : float → float → float := SFmul prec emax.
Definition sub : float → float → float := SFsub prec emax.
Definition div : float → float → float := SFdiv prec emax.
Definition ltb : float → float → bool := SFltb.
(** The binary32 number nearest to the decimal [n / 10 ^ k]. *)
Definition of_decimal (n : Z) (k : nat) : float := div (of_Z n) (of_Z (10 ^ Z.of_nat k)).
Definition zeros (d : nat) : EmbeddingVectorProto := {| value := replicate d zero |}.
End F32.

(** ** The collaborators the test fixture configures

    [BuildConfig] of the test selects the in-proto store with a zero
    initializer and plain SGD.  Their sources are not part of the files
    modelled here. *)

Module Fixture.

Inductive EmbeddingInitializer := zero_initializer.
Inductive KnowledgeBankExtension := InProtoKnowledgeBankConfig.

Record StoreConfig := {
  initializer : option EmbeddingInitializer;
  extension : option KnowledgeBankExtension
}.

(** Modelled from the spec: the embedding store (the in-proto knowledge
    bank), a key to vector container of one fixed dimension. *)
Record InProtoKnowledgeBank := {
  kb_dimension : Z;
  embedding_data : gmap string EmbeddingVectorProto
}.

(** Modelled from the spec: the store factory; it fails on a dimension
    that is not positive or when no backend is selected. *)
Definition InProto_Make (cfg : StoreConfig) (dim : Z) : option InProtoKnowledgeBank :=
  if decide (dim ≤ 0)%Z then None
  else match extension cfg with
       | Some InProtoKnowledgeBankConfig =>
           Some {| kb_dimension := dim; embedding_data := ∅ |}
       | None => None
       end.

(** Modelled from the spec: the pure read, a per-key value or error. *)
Definition InProto_Lookup (kb : InProtoKnowledgeBank) (k : string) : value_or_error :=
  match embedding_data kb !! k with
  | Some v => inl v
  | None => inr "Data not found"
  end.

Definition InProto_BatchLookup (kb : InProtoKnowledgeBank) (keys : list string)
    : list value_or_error :=
  InProto_Lookup kb <$> keys.

(** Modelled from the spec: the create-on-miss read; an absent key is
    created with the zero vector of the configured dimension. *)
Definition InProto_LookupWithUpdate (kb : InProtoKnowledgeBank) (k : string)
    : InProtoKnowledgeBank * value_or_error :=
  match embedding_data kb !! k with
  | Some v => (kb, inl v)
  | None =>
      let v := F32.zeros (Z.to_nat (kb_dimension kb)) in
      ({| kb_dimension := kb_dimension kb;
          embedding_data := <[k := v]> (embedding_data kb) |}, inl v)
  end.

Fixpoint InProto_BatchLookupWithUpdate (kb : InProtoKnowledgeBank) (keys : list string)
    : InProtoKnowledgeBank * list value_or_error :=
  match keys with
  | [] => (kb, [])
  | k :: keys' =>
      let '(kb1, r) := InProto_LookupWithUpdate kb k in
      let '(kb2, rs) := InProto_BatchLookupWithUpdate kb1 keys' in
      (kb2, r :: rs)
  end.

(** Modelled from the spec: the batch put, an unconditional overwrite of
    each key by the vector at the same index. *)
Definition InProto_BatchUpdate (kb : InProtoKnowledgeBank) (keys : list string)
    (vals : list EmbeddingVectorProto) : InProtoKnowledgeBank :=
  {| kb_dimension := kb_dimension kb;
     embedding_data :=
       foldl (λ m kv, <[kv.1 := kv.2]> m) (embedding_data kb) (zip keys vals) |}.

#[export] Instance knowledge_bank : KnowledgeBankInterface := {|
  KnowledgeBankConfig := StoreConfig;
  KnowledgeBank := InProtoKnowledgeBank;
  KnowledgeBankFactory_Make := InProto_Make;
  BatchLookup := InProto_BatchLookup;
  BatchLookupWithUpdate := InProto_BatchLookupWithUpdate;
  BatchUpdate := InProto_BatchUpdate
|}.

Inductive OptimizerKind := sgd.

Record SgdConfig := {
  learning_rate : float;
  optimizer : option OptimizerKind
}.

Record SgdOptimizer := {
  gd_dimension : Z;
  gd_learning_rate : float
}.

(** Modelled from the spec: construction of the optimizer; it fails on a
    dimension or a learning rate that is not positive, or when no update
    rule is selected. *)
Definition Sgd_Create (dim : Z) (cfg : SgdConfig) : option SgdOptimizer :=
  if decide (dim ≤ 0)%Z then None
  else if negb (F32.ltb F32.zero (learning_rate cfg)) then None
  else match optimizer cfg with
       | Some sgd => Some {| gd_dimension := dim;
                             gd_learning_rate := learning_rate cfg |}
       | None => None
       end.

(** One SGD step on one vector: [w - learning_rate * g], per component. *)
Definition sgd_step (lr : float) (w g : EmbeddingVectorProto) : EmbeddingVectorProto :=
  {| value := zip_with (λ x dx, F32.sub x (F32.mul lr dx)) (value w) (value g) |}.

(** Modelled from the spec: given current vectors and matching gradients
    the optimizer returns the updated vectors, or no vector and a
    message. *)
Definition Sgd_Apply (gd : SgdOptimizer) (embeddings gradients : list EmbeddingVectorProto)
    : SgdOptimizer * list EmbeddingVectorProto * string :=
  if decide (embeddings = []) then (gd, [], "Empty variables.")
  else if decide (length embeddings ≠ length gradients) then
    (gd, [], "Inconsistent (variables, gradients) sizes.")
  else if negb (forallb (λ p, bool_decide (length (value p.1) = length (value p.2)))
                  (zip embeddings gradients)) then
    (gd, [], "Inconsistent (variable, gradient) dimensions.")
  else (gd, zip_with (sgd_step (gd_learning_rate gd)) embeddings gradients, "").

#[export] Instance gradient_descent : GradientDescentInterface := {|
  GradientDescentConfig := SgdConfig;
  GradientDescentOptimizer := SgdOptimizer;
  GradientDescentOptimizer_Create := Sgd_Create;
  Apply := Sgd_Apply
|}.

End Fixture.


(** ** The session handle of the fixture

    Modelled from the spec: the handle is the serialized request, the same
    bytes for the same request.  The proto wire format is replaced by an
    S-expression; a handle that does not parse leaves the default (empty)
    message. *)

Module Wire.
Import Fixture.

#[export] Instance Serialize_float : Serialize float :=
  fun x => match x with
           | S754_zero s => [Atom "zero"; to_sexp s]
           | S754_infinity s => [Atom "inf"; to_sexp s]
           | S754_nan => Atom "nan"
           | S754_finite s m e => [Atom "finite"; to_sexp s; to_sexp (Z.pos m); to_sexp e]
           end%sexp.

#[export] Instance Deserialize_float : Deserialize float :=
  Deser.match_con "float" [("nan", S754_nan)]
    [("zero", Deser.con1_ S754_zero);
     ("inf", Deser.con1_ S754_infinity);
     ("finite", Deser.con3_ (fun s (m : Z) e => S754_finite s (Z.to_pos m) e))].

#[export] Instance Serialize_initializer : Serialize EmbeddingInitializer :=
  fun _ => Atom "zero_initializer".

#[export] Instance Deserialize_initializer : Deserialize EmbeddingInitializer :=
  Deser.match_con "initializer" [("zero_initializer", zero_initializer)] [].

#[export] Instance Serialize_extension : Serialize KnowledgeBankExtension :=
  fun _ => Atom "InProtoKnowledgeBankConfig".

#[export] Instance Deserialize_extension : Deserialize KnowledgeBankExtension :=
  Deser.match_con "extension"
    [("InProtoKnowledgeBankConfig", InProtoKnowledgeBankConfig)] [].

#[export] Instance Serialize_store_config : Serialize StoreConfig :=
  fun c => [Atom "knowledge_bank_config";
            to_sexp (initializer c); to_sexp (extension c)]%sexp.

#[export] Instance Deserialize_store_config : Deserialize StoreConfig :=
  Deser.match_con "knowledge_bank_config" []
    [("knowledge_bank_config",
      Deser.con2_ (fun i e => {| initializer := i; extension := e |}))].

#[export] Instance Serialize_optimizer_kind : Serialize OptimizerKind :=
  fun _ => Atom "sgd".

#[export] Instance Deserialize_optimizer_kind : Deserialize OptimizerKind :=
  Deser.match_con "optimizer" [("sgd", sgd)] [].

#[export] Instance Serialize_sgd_config : Serialize SgdConfig :=
  fun c => [Atom "gradient_descent_config";
            to_sexp (learning_rate c); to_sexp (optimizer c)]%sexp.

#[export] Instance Deserialize_sgd_config : Deserialize SgdConfig :=
  Deser.match_con "gradient_descent_config" []
    [("gradient_descent_config",
      Deser.con2_ (fun l o => {| learning_rate := l; optimizer := o |}))].

#[export] Instance Serialize_config : Serialize DynamicEmbeddingConfig.t :=
  fun c => [Atom "config";
            to_sexp (DynamicEmbeddingConfig.embedding_dimension c);
            to_sexp (DynamicEmbeddingConfig.knowledge_bank_config c);
            to_sexp (DynamicEmbeddingConfig.gradient_descent_config c)]%sexp.

#[export] Instance Deserialize_config : Deserialize DynamicEmbeddingConfig.t :=
  Deser.match_con "config" []
    [("config",
      Deser.con3_ (fun d k g =>
        {| DynamicEmbeddingConfig.embedding_dimension := d;
           DynamicEmbeddingConfig.knowledge_bank_config := k;
           DynamicEmbeddingConfig.gradient_descent_config := g |}))].

#[export] Instance Serialize_request : Serialize StartSessionRequest.t :=
  fun r => [Atom "StartSessionRequest";
            to_sexp (StartSessionRequest.name r);
            to_sexp (StartSessionRequest.config r)]%sexp.

#[export] Instance Deserialize_request : Deserialize StartSessionRequest.t :=
  Deser.match_con "StartSessionRequest" []
    [("StartSessionRequest",
      Deser.con2_ (fun n c =>
        {| StartSessionRequest.name := n; StartSessionRequest.config := c |}))].

(** The message a fresh [StartSessionRequest] holds. *)
Definition default_request : StartSessionRequest.t :=
  {| StartSessionRequest.name := "";
     StartSessionRequest.config :=
       {| DynamicEmbeddingConfig.embedding_dimension := 0;
          DynamicEmbeddingConfig.knowledge_bank_config :=
            {| initializer := None; extension := None |};
          DynamicEmbeddingConfig.gradient_descent_config := None |} |}.

Definition serialize (r : StartSessionRequest.t) : string := to_string r.

Definition parse (h : string) : StartSessionRequest.t :=
  match from_string h with
  | inr r => r
  | inl _ => default_request
  end.

#[export] Instance codec : SessionCodec :=
  {| SerializeAsString := serialize; ParseFromString := parse |}.

End Wire.


(** ** Tensors

    A rectangular batch: its shape and its elements in row-major order. *)

Module Tensor.

Record t (A : Type) := { shape : list nat; flat : list A }.
Global Arguments shape {A} _.
Global Arguments flat {A} _.

Definition NumElements {A} (x : t A) : nat := foldr Nat.mul 1 (shape x).

(** The number of elements of the axes before the last one. *)
Definition outer_count {A} (x : t A) : nat := foldr Nat.mul 1 (removelast (shape x)).

(** The length of the last axis. *)
Definition trailing {A} (x : t A) : nat := default 0 (last (shape x)).

(** A default-constructed tensor: one axis of length zero. *)
Definition empty {A} : t A := {| shape := [0]; flat := [] |}.

(** The [i]-th vector of length [d] of the flattened batch. *)
Definition row {A} (d i : nat) (x : t A) : list A := take d (drop (i * d) (flat x)).

End Tensor.

(** ** The client-side batch manager

    Modelled from the spec: [DynamicEmbeddingManager], the client that turns
    batches of keys and vectors into [Lookup] and [Update] calls of the
    service above.  Its source is not part of the files modelled here; the
    test file is.  A world is the service together with the files written by
    [Export]. *)

Module DynamicEmbeddingManager.
Section Manager.
Context `{KB : KnowledgeBankInterface} `{GD : GradientDescentInterface}.
Context `{Codec : !SessionCodec}.

Record Snapshot := {
  snapshot_store : KnowledgeBank;
  snapshot_optimizer : option GradientDescentOptimizer
}.

Record World := {
  server : KnowledgeBankGrpcServiceImpl;
  files : gmap string Snapshot
}.

Record t := {
  config_ : DynamicEmbeddingConfig.t;
  name_ : string;
  session_handle_ : string
}.

Definition dimension (m : t) : nat :=
  Z.to_nat (DynamicEmbeddingConfig.embedding_dimension (config_ m)).

(** The handlers of the service, as the stub names them. *)
Local Abbreviation stub_Lookup := Lookup (only parsing).
Local Abbreviation stub_Update := Update (only parsing).

(** One call over the channel. *)
Definition call {A} (m : rpc A) (w : World) : outcome A * World :=
  let '(r, s) := m (server w) in (r, {| server := s; files := files w |}).

(** The [d] floats written at the position of key [k] of the output
    batch: the resolved vector, zeros for a key with no resolved vector and
    for the empty key. *)
Definition output_row (d : nat) (table : gmap string EmbeddingVectorProto)
    (k : string) : list float :=
  if decide (k = "") then replicate d F32.zero
  else match table !! k with
       | Some v => resize d F32.zero (value v)
       | None => replicate d F32.zero
       end.

(** Modelled from the spec: [Lookup(keysBatch, update, outBatch)]. *)
Definition Lookup (m : t) (keys : Tensor.t string) (update : bool) (w : World)
    : outcome (Tensor.t float) * World :=
  if decide (Tensor.NumElements keys = 0) then
    (Exit {| error_code := INVALID_ARGUMENT; error_message := "No input." |}, w)
  else
    match call (stub_Lookup
                  {| LookupRequest.session_handle := session_handle_ m;
                     LookupRequest.key := Tensor.flat keys;
                     LookupRequest.update := update |}) w with
    | (Done response, w') =>
        (Done {| Tensor.shape := Tensor.shape keys ++ [dimension m];
                 Tensor.flat :=
                   mjoin (output_row (dimension m)
                            (LookupResponse.embedding_table response)
                          <$> Tensor.flat keys) |}, w')
    | (Exit e, w') => (Exit e, w')
    | (Crash, w') => (Crash, w')
    end.

(** Modelled from the spec: the shape and dimension validation shared by
    [UpdateValues] and [UpdateGradients]; [None] when the batch is valid. *)
Definition CheckInput (m : t) (keys : Tensor.t string) (vals : Tensor.t float)
    : option string :=
  if decide (Tensor.NumElements keys = 0) then Some "Input key is empty."
  else if decide (Tensor.NumElements keys ≠ Tensor.outer_count vals) then
    Some ("Inconsistent keys size and values size: " +:+
          pretty (Tensor.NumElements keys) +:+ " v.s. " +:+
          pretty (Tensor.outer_count vals))
  else if decide (Tensor.trailing vals ≠ dimension m) then
    Some ("Inconsistent embedding dimension, got " +:+
          pretty (Tensor.trailing vals) +:+ " expect " +:+
          pretty (dimension m))
  else None.

(** The assignment [map[k] = v] on a proto map kept as its sequence of
    pairs. *)
Fixpoint map_assign {V} (k : string) (v : V) (m : list (string * V))
    : list (string * V) :=
  match m with
  | [] => [(k, v)]
  | (k', v') :: m' =>
      if decide (k = k') then (k, v) :: m' else (k', v') :: map_assign k v m'
  end.

(** The key to vector map of a batch, empty keys omitted. *)
Definition to_proto_map (d : nat) (keys : Tensor.t string) (vals : Tensor.t float)
    : list (string * EmbeddingVectorProto) :=
  foldl (λ (m : list (string * EmbeddingVectorProto)) (i : nat),
           match Tensor.flat keys !! i with
           | Some k =>
               if decide (k = "") then m
               else map_assign k {| value := Tensor.row d i vals |} m
           | None => m
           end)
        [] (seq 0 (Tensor.NumElements keys)).

(** Modelled from the spec: [UpdateValues(keysBatch, valuesBatch)]. *)
Definition UpdateValues (m : t) (keys : Tensor.t string) (vals : Tensor.t float)
    (w : World) : outcome unit * World :=
  match CheckInput m keys vals with
  | Some msg => (Exit {| error_code := INVALID_ARGUMENT; error_message := msg |}, w)
  | None =>
      match call (stub_Update
                    {| UpdateRequest.session_handle := session_handle_ m;
                       UpdateRequest.values := to_proto_map (dimension m) keys vals;
                       UpdateRequest.gradients := [] |}) w with
      | (Done _, w') => (Done (), w')
      | (Exit e, w') => (Exit e, w')
      | (Crash, w') => (Crash, w')
      end
  end.

(** Modelled from the spec: [UpdateGradients(keysBatch, gradsBatch)]. *)
Definition UpdateGradients (m : t) (keys : Tensor.t string) (grads : Tensor.t float)
    (w : World) : outcome unit * World :=
  match CheckInput m keys grads with
  | Some msg => (Exit {| error_code := INVALID_ARGUMENT; error_message := msg |}, w)
  | None =>
      match call (stub_Update
                    {| UpdateRequest.session_handle := session_handle_ m;
                       UpdateRequest.values := [];
                       UpdateRequest.gradients := to_proto_map (dimension m) keys grads |})
                 w with
      | (Done _, w') => (Done (), w')
      | (Exit e, w') => (Exit e, w')
      | (Crash, w') => (Crash, w')
      end
  end.

(** The path of an export: [{directory}/{name}/embedding_store_meta_data.pbtxt]. *)
Definition export_path (directory name : string) : string :=
  directory +:+ "/" +:+ name +:+ "/embedding_store_meta_data.pbtxt".

(** Modelled from the spec: [Export(directory)] writes the state of the
    session (the store and, if any, the optimizer) and returns the path. *)
Definition Export (m : t) (directory : string) (w : World) : outcome string * World :=
  match es_map_ (server w) !! session_handle_ m with
  | Some kb =>
      let path := export_path directory (name_ m) in
      (Done path,
       {| server := server w;
          files := <[path := {| snapshot_store := kb;
                                snapshot_optimizer :=
                                  gd_map_ (server w) !! session_handle_ m |}]>
                     (files w) |})
  | None =>
      (Exit {| error_code := INTERNAL; error_message := "No session to export." |}, w)
  end.

(** Modelled from the spec: [Import(path)] replaces the state of the
    session by the snapshot at [path]. *)
Definition Import (m : t) (path : string) (w : World) : outcome unit * World :=
  match files w !! path with
  | Some snap =>
      (Done (),
       {| server :=
            {| es_map_ := <[session_handle_ m := snapshot_store snap]>
                            (es_map_ (server w));
               gd_map_ :=
                 match snapshot_optimizer snap with
                 | Some gd => <[session_handle_ m := gd]> (gd_map_ (server w))
                 | None => delete (session_handle_ m) (gd_map_ (server w))
                 end;
               calls := calls (server w) |};
          files := files w |})
  | None =>
      (Exit {| error_code := INTERNAL; error_message := "No snapshot to import." |}, w)
  end.

End Manager.
End DynamicEmbeddingManager.


(** ** The test fixture *)

Module Test.
Import Fixture Wire.

(** [DynamicEmbeddingManagerTest::BuildConfig]: the in-proto store with a
    zero initializer, and SGD with the given learning rate. *)
Definition BuildConfig (dimension : Z) (learning_rate : float)
    : DynamicEmbeddingConfig.t :=
  {| DynamicEmbeddingConfig.embedding_dimension := dimension;
     DynamicEmbeddingConfig.knowledge_bank_config :=
       {| initializer := Some zero_initializer;
          extension := Some InProtoKnowledgeBankConfig |};
     DynamicEmbeddingConfig.gradient_descent_config :=
       Some {| Fixture.learning_rate := learning_rate; optimizer := Some sgd |} |}.

(** The default learning rate of [BuildConfig], [0.1f]. *)
Definition default_learning_rate : float := F32.of_decimal 1 1.

(** A server that has just been started by [KbsServerHelper]. *)
Definition fresh_world : DynamicEmbeddingManager.World :=
  {| DynamicEmbeddingManager.server := KnowledgeBankGrpcServiceImpl_new;
     DynamicEmbeddingManager.files := ∅ |}.

(** A configuration is well formed when its embedding dimension is not
    zero and a backend is selected. *)
Definition well_formed (config : DynamicEmbeddingConfig.t) : bool :=
  negb (DynamicEmbeddingConfig.embedding_dimension config =? 0)%Z &&
  bool_decide (is_Some (extension (DynamicEmbeddingConfig.knowledge_bank_config config))).

(** Modelled from the spec: [Create(config, name, address)] validates the
    address and the configuration, then performs one [StartSession] call
    and keeps the handle. *)
Definition Create (config : DynamicEmbeddingConfig.t) (name address : string)
    (w : DynamicEmbeddingManager.World)
    : option DynamicEmbeddingManager.t * DynamicEmbeddingManager.World :=
  if decide (address = "") then (None, w)
  else if negb (well_formed config) then (None, w)
  else
    match DynamicEmbeddingManager.call
            (StartSession {| StartSessionRequest.name := name;
                             StartSessionRequest.config := config |}) w with
    | (Done response, w') =>
        (Some {| DynamicEmbeddingManager.config_ := config;
                 DynamicEmbeddingManager.name_ := name;
                 DynamicEmbeddingManager.session_handle_ :=
                   StartSessionResponse.session_handle response |}, w')
    | (_, w') => (None, w')
    end.

(** A batch of keys along one axis. *)
Definition keys_1d (ks : list string) : Tensor.t string :=
  {| Tensor.shape := [length ks]; Tensor.flat := ks |}.

(** A batch of [n] vectors of dimension [d], from whole numbers. *)
Definition matrix (n d : nat) (xs : list Z) : Tensor.t float :=
  {| Tensor.shape := [n; d]; Tensor.flat := F32.of_Z <$> xs |}.

(** The vector that a store, if there is one, holds for key [k]. *)
Definition entry (store : option KnowledgeBank) (k : string)
    : option EmbeddingVectorProto :=
  store ≫= λ kb : KnowledgeBank, embedding_data kb !! k.

(** The vector that the store of session [h] holds for key [k], if any. *)
Definition stored (w : DynamicEmbeddingManager.World) (h k : string)
    : option EmbeddingVectorProto :=
  entry (es_map_ (DynamicEmbeddingManager.server w) !! h) k.

(** What the store holds for a key that has not been written: no vector,
    or the zero vector that a create-on-miss read has given it. *)
Definition reads_zero (o : option EmbeddingVectorProto) : Prop :=
  match o with
  | None => True
  | Some v => Forall (λ x, x = F32.zero) (value v)
  end.

(** The manager of the tests: dimension 2, name [emb]. *)
Definition emb_config : DynamicEmbeddingConfig.t := BuildConfig 2 default_learning_rate.

Definition emb_request : StartSessionRequest.t :=
  {| StartSessionRequest.name := "emb"; StartSessionRequest.config := emb_config |}.

Definition emb_handle : string := SerializeAsString emb_request.

Definition emb : DynamicEmbeddingManager.t :=
  {| DynamicEmbeddingManager.config_ := emb_config;
     DynamicEmbeddingManager.name_ := "emb";
     DynamicEmbeddingManager.session_handle_ := emb_handle |}.

(** The world once [Create] has returned the manager. *)
Definition emb_world : DynamicEmbeddingManager.World :=
  (Create emb_config "emb" "localhost:0" fresh_world).2.

Definition three_keys : Tensor.t string := keys_1d ["first"; "second"; "third"].

(** [TEST_F(DynamicEmbeddingManagerTest, UpdateGradients_1DInput)]: the
    embeddings read back at the end, [None] where an assertion fails. *)
Definition UpdateGradients_1DInput : option (Tensor.t float) :=
  match Create emb_config "emb" "localhost:0" fresh_world with
  | (Some de_manager, w0) =>
      match DynamicEmbeddingManager.Lookup de_manager three_keys true w0 with
      | (Done _, w1) =>
          match DynamicEmbeddingManager.UpdateGradients de_manager three_keys
                  (matrix 3 2 [1; 2; 3; 4; 5; 6]%Z) w1 with
          | (Done _, w2) =>
              match DynamicEmbeddingManager.Lookup de_manager three_keys false w2 with
              | (Done embed, _) => Some embed
              | _ => None
              end
          | _ => None
          end
      | _ => None
      end
  | _ => None
  end.

(** A vector from whole numbers. *)
Definition vector (xs : list Z) : EmbeddingVectorProto :=
  {| value := F32.of_Z <$> xs |}.

(** The configuration of a default-constructed [DynamicEmbeddingConfig]. *)
Definition empty_config : DynamicEmbeddingConfig.t :=
  StartSessionRequest.config Wire.default_request.

(** A configuration that selects the store and no optimizer. *)
Definition store_only_config : DynamicEmbeddingConfig.t :=
  {| DynamicEmbeddingConfig.embedding_dimension := 2;
     DynamicEmbeddingConfig.knowledge_bank_config :=
       {| initializer := Some zero_initializer;
          extension := Some InProtoKnowledgeBankConfig |};
     DynamicEmbeddingConfig.gradient_descent_config := None |}.

(** The handle of the session [name] with configuration [config]. *)
Definition handle_of (name : string) (config : DynamicEmbeddingConfig.t) : string :=
  SerializeAsString {| StartSessionRequest.name := name;
                       StartSessionRequest.config := config |}.

(** The service once [keys] have been read with create-on-miss under [h]. *)
Definition service_with (h : string) (keys : list string)
    : KnowledgeBankGrpcServiceImpl :=
  (Lookup {| LookupRequest.session_handle := h; LookupRequest.key := keys;
             LookupRequest.update := true |}
     KnowledgeBankGrpcServiceImpl_new).2.

End Test.


(** ** Notions used by the statements *)

Section Notions.
Context `{KB : KnowledgeBankInterface} `{GD : GradientDescentInterface}.
Context `{Codec : !SessionCodec}.

(** The keys whose fetch succeeded, each with its vector, in key order. *)
Definition valid (keys : list string) (value_or_errors : list value_or_error)
    : list (string * EmbeddingVectorProto) :=
  omap (λ kr : string * value_or_error,
          match kr.2 with inl v => Some (kr.1, v) | inr _ => None end)
       (zip keys value_or_errors).

(** A session exists under a handle when its store is registered and,
    if the request behind the handle carries a gradient descent
    configuration, so is its optimizer. *)
Definition session_exists (s : KnowledgeBankGrpcServiceImpl) (h : string) : Prop :=
  is_Some (es_map_ s !! h) ∧
  (is_Some (DynamicEmbeddingConfig.gradient_descent_config
              (StartSessionRequest.config (ParseFromString h))) →
   is_Some (gd_map_ s !! h)).

(** The status a finished call reports; a crashed call reports none. *)
Definition status_of {A} (o : outcome A) : option Status :=
  match o with
  | Done _ => Some Status_OK
  | Exit e => Some e
  | Crash => None
  end.

Definition code_of {A} (o : outcome A) : option StatusCode :=
  error_code <$> status_of o.

(** A call that left with the given code and message. *)
Definition failed {A} (c : StatusCode) (msg : string) : outcome A :=
  Exit {| error_code := c; error_message := msg |}.

(** A service state with the history of calls extended. *)
Definition with_calls (s : KnowledgeBankGrpcServiceImpl) (cs : list Call)
    : KnowledgeBankGrpcServiceImpl :=
  {| es_map_ := es_map_ s; gd_map_ := gd_map_ s; calls := calls s ++ cs |}.

(** A service state with the store under [h] replaced. *)
Definition with_store (s : KnowledgeBankGrpcServiceImpl) (h : string)
    (kb : KnowledgeBank) : KnowledgeBankGrpcServiceImpl :=
  {| es_map_ := <[h := kb]> (es_map_ s); gd_map_ := gd_map_ s; calls := calls s |}.

(** A service state with the optimizer under [h] replaced. *)
Definition with_optimizer (s : KnowledgeBankGrpcServiceImpl) (h : string)
    (gd : GradientDescentOptimizer) : KnowledgeBankGrpcServiceImpl :=
  {| es_map_ := es_map_ s; gd_map_ := <[h := gd]> (gd_map_ s); calls := calls s |}.

(** What [Lookup] fetches from a store: the store after the read and the
    per-key results. *)
Definition fetch (update : bool) (kb : KnowledgeBank) (keys : list string)
    : KnowledgeBank * list value_or_error :=
  if update then BatchLookupWithUpdate kb keys else (kb, BatchLookup kb keys).

(** The store of the session after the values branch of [Update]. *)
Definition store_after_values (request : UpdateRequest.t) (kb : KnowledgeBank)
    : KnowledgeBank :=
  if decide (UpdateRequest.values request = []) then kb
  else BatchUpdate kb (UpdateRequest.values request).*1
         (UpdateRequest.values request).*2.

(** The service after the values branch of [Update], [kb] being the store
    of the session before it. *)
Definition after_values (request : UpdateRequest.t)
    (s : KnowledgeBankGrpcServiceImpl) (kb : KnowledgeBank)
    : KnowledgeBankGrpcServiceImpl :=
  if decide (UpdateRequest.values request = []) then s
  else
    with_store
      (with_calls s [BatchUpdate_call (UpdateRequest.session_handle request)
                       (UpdateRequest.values request).*1
                       (UpdateRequest.values request).*2])
      (UpdateRequest.session_handle request) (store_after_values request kb).

(** A computation that reads and writes no session but the one of [h]. *)
Definition only_touches {A} (h : string) (m : rpc A) : Prop :=
  ∀ s o s', m s = (o, s') →
    ∀ h', h' ≠ h →
      es_map_ s' !! h' = es_map_ s !! h' ∧ gd_map_ s' !! h' = gd_map_ s !! h'.

(** Two service states with the same stores and optimizers. *)
Definition same_maps (s s' : KnowledgeBankGrpcServiceImpl) : Prop :=
  es_map_ s = es_map_ s' ∧ gd_map_ s = gd_map_ s'.

(** A computation whose outcome and maps do not depend on the history of
    calls. *)
Definition ignores_calls {A} (m : rpc A) : Prop :=
  ∀ s s', same_maps s s' → (m s).1 = (m s').1 ∧ same_maps (m s).2 (m s').2.

(** A computation that leaves early with no code but [INTERNAL]. *)
Definition exits_internal {A} (m : rpc A) : Prop :=
  ∀ s e s', m s = (Exit e, s') → error_code e = INTERNAL.

(** The request is rejected by the validation at the head of [Update]. *)
Definition Update_rejects (request : UpdateRequest.t) : Prop :=
  UpdateRequest.session_handle request = "" ∨
  (UpdateRequest.values request = [] ∧ UpdateRequest.gradients request = []).

(** The claim that two [StartSession] calls with the same request both
    succeed with one handle, the second one leaving the service as it
    found it. *)
Definition StartSession_twice_succeeds (request : StartSessionRequest.t)
    (s : KnowledgeBankGrpcServiceImpl) : Prop :=
  ∃ response s1,
    StartSession request s = (Done response, s1) ∧
    StartSession request s1 = (Done response, s1).

(** *** Requests handled one after another *)

(** A request to the service. *)
Inductive Request :=
| StartSession_request (r : StartSessionRequest.t)
| Lookup_request (r : LookupRequest.t)
| Update_request (r : UpdateRequest.t).

(** The handle a request addresses. *)
Definition request_handle (rq : Request) : string :=
  match rq with
  | StartSession_request r => SerializeAsString r
  | Lookup_request r => LookupRequest.session_handle r
  | Update_request r => UpdateRequest.session_handle r
  end.

(** The service after it has handled a request. *)
Definition serve (rq : Request) (s : KnowledgeBankGrpcServiceImpl)
    : KnowledgeBankGrpcServiceImpl :=
  match rq with
  | StartSession_request r => (StartSession r s).2
  | Lookup_request r => (Lookup r s).2
  | Update_request r => (Update r s).2
  end.

(** The service after it has handled a sequence of requests. *)
Definition serve_all (rqs : list Request) (s : KnowledgeBankGrpcServiceImpl)
    : KnowledgeBankGrpcServiceImpl :=
  foldl (λ s rq, serve rq s) s rqs.

(** A computation that keeps a property of the service. *)
Definition preserves {A} (P : KnowledgeBankGrpcServiceImpl → Prop) (m : rpc A)
    : Prop :=
  ∀ s o s', P s → m s = (o, s') → P s'.

(** The factory calls of a history that returned a store, and the
    constructor calls that returned an optimizer. *)
Definition made_store (c : Call) : bool :=
  match c with
  | Make_call cfg dim =>
      match KnowledgeBankFactory_Make cfg dim with Some _ => true | None => false end
  | _ => false
  end.

Definition made_optimizer (c : Call) : bool :=
  match c with
  | Create_call dim cfg =>
      match GradientDescentOptimizer_Create dim cfg with
      | Some _ => true
      | None => false
      end
  | _ => false
  end.

Fixpoint count_calls (p : Call → bool) (cs : list Call) : nat :=
  match cs with
  | [] => 0
  | c :: cs' => (if p c then 1 else 0) + count_calls p cs'
  end.

(** The registry is well formed: an optimizer is registered only under a
    handle that has a store and whose request carries a gradient descent
    configuration. *)
Definition registry_ok (s : KnowledgeBankGrpcServiceImpl) : Prop :=
  ∀ h, is_Some (gd_map_ s !! h) →
    is_Some (es_map_ s !! h) ∧
    is_Some (DynamicEmbeddingConfig.gradient_descent_config
               (StartSessionRequest.config (ParseFromString h))).

(** The registry accounts for its constructions: as many stores as
    factory calls that returned one, as many optimizers as constructor
    calls that returned one. *)
Definition registry_accounted (s : KnowledgeBankGrpcServiceImpl) : Prop :=
  size (es_map_ s) = count_calls made_store (calls s) ∧
  size (gd_map_ s) = count_calls made_optimizer (calls s).

(** The message of the gradients branch when no optimizer is registered. *)
Definition no_optimizer_message : string :=
  "Optimizer is not created, did you forget to add " +:+
  "gradient_descent_config in DynamicEmbeddingConfig?".

End Notions.


(** ** Facts about the service *)

Section ServiceFacts.
Context `{KB : KnowledgeBankInterface} `{GD : GradientDescentInterface}.
Context `{Codec : !SessionCodec}.

Implicit Types (s : KnowledgeBankGrpcServiceImpl) (h : string).

Ltac unfold_rpc :=
  unfold es_BatchLookup, es_BatchLookupWithUpdate, es_BatchUpdate, gd_Apply,
    es_at, gd_at, es_contains, gd_contains, bind, get, ret, record,
    set_es, set_gd, exit_with, crash.

(** *** Ensuring that a session exists *)

Lemma StartSessionIfNecessary_exists h s :
  session_exists s h → StartSessionIfNecessary h s = (Done (), s).
Proof.
  intros [[kb Hkb] Hgd]. unfold StartSessionIfNecessary. unfold_rpc.
  rewrite Hkb. cbn.
  destruct (DynamicEmbeddingConfig.gradient_descent_config _) as [cfg|] eqn:Hcfg;
    [|done].
  destruct Hgd as [gd Hgd]; [by eexists|]. by rewrite Hgd.
Qed.

Lemma StartSessionIfNecessary_Done h s s' :
  StartSessionIfNecessary h s = (Done (), s') → session_exists s' h.
Proof.
  unfold StartSessionIfNecessary, session_exists. unfold_rpc. cbn.
  intros Hrun. repeat case_match; simplify_eq; cbn in *;
    rewrite ?lookup_insert_eq; split; intros; eauto; try done;
    by match goal with H : is_Some None |- _ => destruct H end.
Qed.

Lemma StartSessionIfNecessary_no_Crash h s s' :
  StartSessionIfNecessary h s ≠ (Crash, s').
Proof.
  unfold StartSessionIfNecessary. unfold_rpc. cbn.
  repeat case_match; congruence.
Qed.

Lemma StartSessionIfNecessary_Exit h s e s' :
  StartSessionIfNecessary h s = (Exit e, s') → error_code e = INTERNAL.
Proof.
  unfold StartSessionIfNecessary. unfold_rpc. cbn.
  repeat case_match; intros; by simplify_eq.
Qed.

(** A store or an optimizer that is registered is never replaced by the
    creation step. *)
Lemma StartSessionIfNecessary_keeps h s o s' h' :
  StartSessionIfNecessary h s = (o, s') →
  (∀ kb, es_map_ s !! h' = Some kb → es_map_ s' !! h' = Some kb) ∧
  (∀ gd, gd_map_ s !! h' = Some gd → gd_map_ s' !! h' = Some gd).
Proof.
  unfold StartSessionIfNecessary. unfold_rpc. cbn.
  repeat case_match; intros; simplify_eq; cbn in *; split; intros ? Hl;
    try done; (destruct (decide (h = h')) as [->|];
      [congruence | by rewrite lookup_insert_ne]).
Qed.

(** C10.  When the store of a new session is constructed and the
    construction of its optimizer fails, [StartSessionIfNecessary] (and so
    [StartSession], [Lookup] and [Update], which all begin with it) returns
    the internal error of the optimizer while the new store stays in
    [es_map_]: [KnowledgeBankSize] counts it, and a later call for the same
    handle finds the store and makes no call to the store factory. *)
Theorem optimizer_failure_leaves_store_registered h s kb gd_config :
  let config := StartSessionRequest.config (ParseFromString h) in
  let dim := DynamicEmbeddingConfig.embedding_dimension config in
  let kb_config := DynamicEmbeddingConfig.knowledge_bank_config config in
  es_map_ s !! h = None →
  gd_map_ s !! h = None →
  KnowledgeBankFactory_Make kb_config dim = Some kb →
  DynamicEmbeddingConfig.gradient_descent_config config = Some gd_config →
  GradientDescentOptimizer_Create dim gd_config = None →
  let msg := "Creating GradientDescentOptimizer failed." in
  let s1 := with_calls (with_store s h kb)
              [Make_call kb_config dim; Create_call dim gd_config] in
  StartSessionIfNecessary h s = (failed INTERNAL msg, s1) ∧
  (∀ request, SerializeAsString request = h →
     StartSessionRequest.name request ≠ "" →
     StartSession request s = (failed INTERNAL msg, s1)) ∧
  (∀ request, LookupRequest.session_handle request = h → h ≠ "" →
     LookupRequest.key request ≠ [] →
     Lookup request s = (failed INTERNAL msg, s1)) ∧
  (∀ request, UpdateRequest.session_handle request = h → h ≠ "" →
     ¬ (UpdateRequest.values request = [] ∧ UpdateRequest.gradients request = []) →
     Update request s = (failed INTERNAL msg, s1)) ∧
  es_map_ s1 !! h = Some kb ∧
  KnowledgeBankSize s1 = S (KnowledgeBankSize s) ∧
  StartSessionIfNecessary h s1 = (failed INTERNAL msg, with_calls s1 [Create_call dim gd_config]).
Proof.
  intros config dim kb_config Hes Hgd HMake Hcfg HCreate msg s1.
  assert (Hrun : StartSessionIfNecessary h s = (failed INTERNAL msg, s1)).
  { unfold StartSessionIfNecessary. unfold_rpc. cbn.
    fold config. fold dim. fold kb_config.
    rewrite Hes. cbn. rewrite HMake. cbn. rewrite Hgd, Hcfg. cbn.
    rewrite HCreate. cbn. unfold s1, with_calls, with_store. cbn.
    by rewrite <-(assoc_L (++)). }
  split; [done|]. split; [|split; [|split; [|split; [|split]]]].
  - intros request Hh Hname. unfold StartSession.
    rewrite decide_False by done. cbn. unfold bind. by rewrite Hh, Hrun.
  - intros request Hh Hne Hkeys. unfold Lookup. rewrite Hh.
    rewrite !decide_False by done. unfold bind. by rewrite Hrun.
  - intros request Hh Hne Hin. unfold Update. rewrite Hh.
    rewrite !decide_False by done. unfold bind. by rewrite Hrun.
  - cbn. apply lookup_insert_eq.
  - unfold KnowledgeBankSize. cbn. by apply map_size_insert_None.
  - unfold StartSessionIfNecessary. unfold_rpc. cbn.
    fold config. fold dim. fold kb_config.
    rewrite lookup_insert_eq. cbn. rewrite Hgd, Hcfg. cbn. by rewrite HCreate.
Qed.

(** *** Which codes a handler can leave with *)

Lemma exits_internal_bind {A B} (m : rpc A) (f : A → rpc B) :
  exits_internal m → (∀ a, exits_internal (f a)) → exits_internal (bind m f).
Proof.
  intros Hm Hf s e s'. unfold bind.
  destruct (m s) as [[a|e0|] s0] eqn:Hms; intros Hrun; simplify_eq.
  - by eapply Hf.
  - by eapply Hm.
Qed.

Lemma exits_internal_ret {A} (a : A) : exits_internal (ret a).
Proof. by intros s e s'. Qed.

Lemma exits_internal_exit_with {A} msg : exits_internal (@exit_with _ _ A INTERNAL msg).
Proof. intros s e s'. unfold exit_with. by intros [= <- <-]. Qed.

Lemma exits_internal_StartSessionIfNecessary h :
  exits_internal (StartSessionIfNecessary h).
Proof. intros s e s'. apply StartSessionIfNecessary_Exit. Qed.

Lemma exits_internal_es_BatchUpdate h keys vals :
  exits_internal (es_BatchUpdate h keys vals).
Proof. intros s e s'. unfold_rpc. by repeat case_match. Qed.

Lemma exits_internal_es_BatchLookup h keys :
  exits_internal (es_BatchLookup h keys).
Proof. intros s e s'. unfold_rpc. by repeat case_match. Qed.

Lemma exits_internal_gd_Apply h embeddings gradients :
  exits_internal (gd_Apply h embeddings gradients).
Proof. intros s e s'. unfold_rpc. by repeat case_match. Qed.

Lemma exits_internal_gd_contains h : exits_internal (gd_contains h).
Proof. by intros s e s'. Qed.

Lemma exits_internal_Update_values request :
  exits_internal (Update_values request).
Proof.
  unfold Update_values. case_decide.
  - apply exits_internal_ret.
  - apply exits_internal_es_BatchUpdate.
Qed.

Lemma exits_internal_Update_gradients request :
  exits_internal (Update_gradients request).
Proof.
  unfold Update_gradients. case_decide; [apply exits_internal_ret|].
  apply exits_internal_bind; [apply exits_internal_gd_contains|].
  intros []; cbn; [|apply exits_internal_exit_with].
  apply exits_internal_bind; [apply exits_internal_es_BatchLookup|].
  intros value_or_errors. case_decide; [apply exits_internal_exit_with|].
  destruct (collect_valid _ _) as [valid_keys embeddings].
  case_decide; [apply exits_internal_exit_with|].
  apply exits_internal_bind; [apply exits_internal_gd_Apply|].
  intros [updated error_msg]. case_decide; [apply exits_internal_exit_with|].
  apply exits_internal_es_BatchUpdate.
Qed.

(** C8.  [Update] leaves with [INVALID_ARGUMENT] exactly when the handle is
    empty or both maps are empty; it then leaves the service as it found
    it, with no call made to a store, an optimizer or a factory. *)
Theorem Update_invalid_argument request s :
  (code_of (Update request s).1 = Some INVALID_ARGUMENT ↔ Update_rejects request) ∧
  (Update_rejects request → (Update request s).2 = s).
Proof.
  unfold Update, Update_rejects. split.
  - split.
    + intros Hcode. repeat case_decide; [by left|by right|]. exfalso.
      destruct (bind _ _ s) as [[r|e|] s'] eqn:Hrun; try done.
      cbn in Hcode. injection Hcode as Hcode.
      assert (error_code e = INTERNAL) as Hint; [|congruence].
      eapply (exits_internal_bind (StartSessionIfNecessary _)); [| |exact Hrun].
      * apply exits_internal_StartSessionIfNecessary.
      * intros ?. apply exits_internal_bind; [apply exits_internal_Update_values|].
        intros ?. apply exits_internal_bind; [apply exits_internal_Update_gradients|].
        intros ?. apply exits_internal_ret.
    + intros [Hh|Hin]; repeat case_decide; try done; tauto.
  - intros [Hh|Hin]; repeat case_decide; try done; tauto.
Qed.

(** *** The two index loops *)

Lemma valid_snoc keys k (value_or_errors : list value_or_error) :
  valid (keys ++ [k]) value_or_errors =
  valid keys value_or_errors ++
    match value_or_errors !! length keys with
    | Some (inl v) => [(k, v)]
    | _ => []
    end.
Proof.
  unfold valid. revert value_or_errors.
  induction keys as [|k0 keys IH]; intros [|r rs]; cbn; try done.
  - by destruct r.
  - rewrite IH. by destruct r.
Qed.

(** A loop over the indices of [keys] that acts on the successful fetches
    is a fold over [valid]. *)
Lemma index_loop_valid {B} (step : B → string → EmbeddingVectorProto → B)
    keys (value_or_errors : list value_or_error) acc n :
  n ≤ length keys →
  foldl (λ acc i,
           match value_or_errors !! i, keys !! i with
           | Some (inl v), Some k => step acc k v
           | _, _ => acc
           end) acc (seq 0 n) =
  foldl (λ acc kv, step acc kv.1 kv.2) acc (valid (take n keys) value_or_errors).
Proof.
  induction n as [|n IH]; intros Hn; [done|].
  rewrite seq_S, foldl_app, IH by lia. cbn.
  destruct (lookup_lt_is_Some_2 keys n) as [k Hk]; [lia|].
  rewrite (take_S_r _ _ _ Hk), valid_snoc, length_take_le, foldl_app, Hk by lia.
  by destruct (value_or_errors !! n) as [[v|e]|].
Qed.

Lemma foldl_push_pairs (l : list (string * EmbeddingVectorProto)) ks vs :
  foldl (λ acc kv, (acc.1 ++ [kv.1], acc.2 ++ [kv.2])) (ks, vs) l =
  (ks ++ l.*1, vs ++ l.*2).
Proof.
  revert ks vs. induction l as [|[k v] l IH]; intros ks vs; cbn.
  - by rewrite !app_nil_r.
  - rewrite IH. cbn. by rewrite <-!(assoc_L (++)).
Qed.

Lemma collect_valid_spec keys value_or_errors :
  collect_valid keys value_or_errors =
  ((valid keys value_or_errors).*1, (valid keys value_or_errors).*2).
Proof.
  unfold collect_valid.
  rewrite (index_loop_valid (λ acc k v, (acc.1 ++ [k], acc.2 ++ [v]))) by done.
  by rewrite firstn_all, foldl_push_pairs.
Qed.

Lemma fill_embedding_table_spec keys value_or_errors :
  fill_embedding_table keys value_or_errors =
  list_to_map (reverse (valid keys value_or_errors)).
Proof.
  unfold fill_embedding_table.
  rewrite (index_loop_valid (λ m k v, <[k := v]> m)) by done.
  rewrite firstn_all.
  induction (valid keys value_or_errors) as [|[k v] l IH] using rev_ind; [done|].
  by rewrite foldl_app, reverse_snoc, IH.
Qed.

Lemma elem_of_valid keys value_or_errors k v :
  (k, v) ∈ valid keys value_or_errors ↔
  ∃ i, keys !! i = Some k ∧ value_or_errors !! i = Some (inl v).
Proof.
  unfold valid. rewrite list_elem_of_omap. split.
  - intros ([k' r] & Hin & Hr). cbn in Hr. destruct r as [v'|]; [|done].
    simplify_eq. apply elem_of_lookup_zip_with in Hin as (i & ? & ? & ? & ? & ?).
    simplify_eq. eauto.
  - intros (i & Hk & Hv). exists (k, inl v). split; [|done].
    apply elem_of_lookup_zip_with. eauto 10.
Qed.

Lemma valid_sublist keys value_or_errors :
  (valid keys value_or_errors).*1 `sublist_of` keys.
Proof.
  unfold valid. revert value_or_errors.
  induction keys as [|k keys IH]; intros [|r rs]; cbn; try done.
  - apply sublist_nil_l.
  - destruct r; cbn; [by apply sublist_skip|by apply sublist_cons].
Qed.

(** *** StartSession *)

(** C2, as amended.  When a [StartSession] call succeeds, its handle is the
    serialized request, and a second call with the same request succeeds
    with the same handle and leaves the service as it is: both maps keep
    the store and the optimizer they hold, and no constructor is called. *)
Theorem StartSession_idempotent request s response s1 :
  StartSession request s = (Done response, s1) →
  StartSessionResponse.session_handle response = SerializeAsString request ∧
  StartSession request s1 = (Done response, s1).
Proof.
  unfold StartSession. case_decide; [done|]. unfold bind at 1.
  destruct (StartSessionIfNecessary _ s) as [[[]|e|] s0] eqn:Hrun; [|done..].
  unfold ret. intros [= <- <-]. split; [done|].
  apply StartSessionIfNecessary_Done, StartSessionIfNecessary_exists in Hrun.
  unfold bind. by rewrite Hrun.
Qed.

(** *** Lookup *)

(** The run of [Lookup] once its request is accepted and its session
    exists. *)
Lemma Lookup_run request s kb :
  let h := LookupRequest.session_handle request in
  let keys := LookupRequest.key request in
  let update := LookupRequest.update request in
  let fetched := fetch update kb keys in
  h ≠ "" → keys ≠ [] → session_exists s h → es_map_ s !! h = Some kb →
  Lookup request s =
  (if decide (length fetched.2 ≠ length keys)
   then failed INTERNAL "Inconsistent result returned by BatchLookup()"
   else Done {| LookupResponse.embedding_table :=
                  fill_embedding_table keys fetched.2 |},
   if update
   then with_store (with_calls s [BatchLookupWithUpdate_call h keys]) h fetched.1
   else with_calls s [BatchLookup_call h keys]).
Proof.
  intros h keys update fetched Hh Hkeys Hs Hkb. unfold Lookup.
  rewrite !decide_False by done. fold h keys update.
  unfold bind at 1. rewrite (StartSessionIfNecessary_exists _ _ Hs).
  unfold fetched, fetch. destruct update.
  - unfold_rpc. rewrite Hkb. cbn.
    destruct (BatchLookupWithUpdate kb keys) as [kb' value_or_errors]. cbn.
    by case_decide.
  - unfold_rpc. rewrite Hkb. cbn. by case_decide.
Qed.

(** C3.  For an accepted [Lookup] request whose session exists: the call
    leaves with the internal error exactly when the store returned a number
    of results other than the number of keys; otherwise it succeeds, every
    entry of the returned table is a successful fetch of its key, and a key
    is absent from the table exactly when none of its fetches succeeded. *)
Theorem Lookup_partial_result request s kb :
  let h := LookupRequest.session_handle request in
  let keys := LookupRequest.key request in
  let value_or_errors := (fetch (LookupRequest.update request) kb keys).2 in
  h ≠ "" → keys ≠ [] → session_exists s h → es_map_ s !! h = Some kb →
  (code_of (Lookup request s).1 = Some INTERNAL ↔
     length value_or_errors ≠ length keys) ∧
  (length value_or_errors ≠ length keys →
     (Lookup request s).1 =
       failed INTERNAL "Inconsistent result returned by BatchLookup()") ∧
  (length value_or_errors = length keys →
     ∃ response, (Lookup request s).1 = Done response ∧
       ∀ k,
         (∀ v, LookupResponse.embedding_table response !! k = Some v →
               ∃ i, keys !! i = Some k ∧ value_or_errors !! i = Some (inl v)) ∧
         (LookupResponse.embedding_table response !! k = None ↔
            ∀ i v, keys !! i = Some k → value_or_errors !! i ≠ Some (inl v))).
Proof.
  intros h keys value_or_errors Hh Hkeys Hs Hkb.
  rewrite (Lookup_run request s kb) by done. cbn.
  fold h keys value_or_errors. split; [|split].
  - case_decide; cbn; [done|]. split; [done|]. by intros [].
  - intros Hlen. by rewrite decide_True.
  - intros Hlen. rewrite decide_False by (by intros []).
    eexists. split; [done|]. cbn. intros k.
    rewrite fill_embedding_table_spec. split.
    + intros v Hv%elem_of_list_to_map_2. rewrite elem_of_reverse in Hv.
      by apply elem_of_valid.
    + rewrite <-not_elem_of_list_to_map. split.
      * intros Hnot i v Hk Hv. apply Hnot, list_elem_of_fmap.
        exists (k, v). split; [done|].
        rewrite elem_of_reverse. apply elem_of_valid. eauto.
      * intros Hall ([k' v] & -> & Hin)%list_elem_of_fmap.
        rewrite elem_of_reverse in Hin.
        apply elem_of_valid in Hin as (i & Hk & Hv). by eapply Hall.
Qed.

(** *** Update *)

Lemma Update_values_run request s kb :
  es_map_ s !! UpdateRequest.session_handle request = Some kb →
  Update_values request s = (Done (), after_values request s kb).
Proof.
  intros Hkb. unfold Update_values, after_values, store_after_values.
  case_decide; [done|]. unfold_rpc. by rewrite Hkb.
Qed.

Lemma after_values_store request s kb :
  es_map_ s !! UpdateRequest.session_handle request = Some kb →
  es_map_ (after_values request s kb) !! UpdateRequest.session_handle request =
  Some (store_after_values request kb).
Proof.
  intros Hkb. unfold after_values, store_after_values.
  case_decide; [done|]. cbn. apply lookup_insert_eq.
Qed.

Lemma after_values_optimizer request s kb :
  gd_map_ (after_values request s kb) = gd_map_ s.
Proof. unfold after_values. by case_decide. Qed.

(** An accepted [Update] whose session is there after the creation step
    runs its two branches. *)
Lemma Update_run request s s0 kb :
  let h := UpdateRequest.session_handle request in
  h ≠ "" → ¬ Update_rejects request →
  StartSessionIfNecessary h s = (Done (), s0) →
  es_map_ s0 !! h = Some kb →
  Update request s =
  bind (Update_gradients request) (λ _, ret UpdateResponse.Build_t)
    (after_values request s0 kb).
Proof.
  intros h Hh Hin Hs Hkb. unfold Update. fold h.
  rewrite decide_False by done.
  rewrite decide_False by (intros ?; apply Hin; by right).
  unfold bind at 1. rewrite Hs.
  unfold bind at 1. by rewrite (Update_values_run _ _ kb).
Qed.

Lemma valid_length keys (value_or_errors : list value_or_error) :
  length (valid keys value_or_errors) ≤ length keys.
Proof.
  rewrite <-(length_fmap fst). apply sublist_length, valid_sublist.
Qed.

Lemma valid_length_lt keys (value_or_errors : list value_or_error) i e :
  i < length keys → value_or_errors !! i = Some (inr e) →
  length (valid keys value_or_errors) < length keys.
Proof.
  revert value_or_errors i.
  induction keys as [|k keys IH]; intros [|r rs] i Hi Hr; cbn in Hi;
    [lia|lia|done|].
  pose proof (valid_length keys rs) as Hle.
  unfold valid in *. cbn.
  destruct i as [|i]; cbn in Hr.
  - simplify_eq. cbn. lia.
  - specialize (IH rs i ltac:(lia) Hr). destruct r; cbn; lia.
Qed.

(** The run of the gradients branch up to and past the call of [Apply]. *)
Lemma Update_gradients_run request s1 kb1 gd :
  let h := UpdateRequest.session_handle request in
  let keys := (UpdateRequest.gradients request).*1 in
  let gradients := (UpdateRequest.gradients request).*2 in
  let value_or_errors := BatchLookup kb1 keys in
  let valid_keys := (valid keys value_or_errors).*1 in
  let embeddings := (valid keys value_or_errors).*2 in
  let applied := Apply gd embeddings gradients in
  let s2 :=
    with_optimizer
      (with_calls s1 [BatchLookup_call h keys; Apply_call h embeddings gradients])
      h applied.1.1 in
  UpdateRequest.gradients request ≠ [] →
  es_map_ s1 !! h = Some kb1 → gd_map_ s1 !! h = Some gd →
  length value_or_errors = length keys →
  valid keys value_or_errors ≠ [] →
  Update_gradients request s1 =
  if decide (applied.1.2 = [])
  then (failed INTERNAL
          ("Applying gradient update returned error: " +:+ applied.2), s2)
  else (Done (),
        with_store (with_calls s2 [BatchUpdate_call h valid_keys applied.1.2])
          h (BatchUpdate kb1 valid_keys applied.1.2)).
Proof.
  intros h keys gradients value_or_errors valid_keys embeddings applied s2
    Hgrads Hkb Hgd Hlen Hvalid.
  unfold Update_gradients. rewrite decide_False by done.
  fold h keys gradients. unfold_rpc. cbn. rewrite Hgd. cbn. rewrite Hkb. cbn.
  fold value_or_errors. rewrite decide_False by (by intros []).
  rewrite collect_valid_spec. fold valid_keys embeddings.
  rewrite decide_False by (unfold valid_keys; by destruct (valid _ _)).
  cbn. rewrite Hgd. cbn. fold applied.
  subst s2. clearbody applied. destruct applied as [[gd' updated] error_msg].
  cbn. case_decide; unfold failed, with_calls, with_optimizer, with_store; cbn.
  - by rewrite <-(assoc_L (++)).
  - rewrite Hkb. cbn. by rewrite <-!(assoc_L (++)).
Qed.

(** C1.  In the gradients branch of an accepted [Update] that has passed
    the creation step and reaches the optimizer, [Apply] is called with the
    vectors of the keys whose fetch succeeded, in key order, and with the
    gradients of all keys of the request; the write-back stores the
    returned vectors under the keys whose fetch succeeded.  When a fetch
    fails, the list of vectors is shorter than the list of gradients and
    the keys behind the vectors are not the keys behind the gradients. *)
Theorem Update_gradients_misaligned request s s0 kb gd :
  let h := UpdateRequest.session_handle request in
  let keys := (UpdateRequest.gradients request).*1 in
  let gradients := (UpdateRequest.gradients request).*2 in
  let kb1 := store_after_values request kb in
  let s1 := after_values request s0 kb in
  let value_or_errors := BatchLookup kb1 keys in
  let valid_keys := (valid keys value_or_errors).*1 in
  let embeddings := (valid keys value_or_errors).*2 in
  let applied := Apply gd embeddings gradients in
  let s2 :=
    with_optimizer
      (with_calls s1 [BatchLookup_call h keys; Apply_call h embeddings gradients])
      h applied.1.1 in
  h ≠ "" → UpdateRequest.gradients request ≠ [] →
  StartSessionIfNecessary h s = (Done (), s0) →
  es_map_ s0 !! h = Some kb → gd_map_ s0 !! h = Some gd →
  length value_or_errors = length keys →
  valid keys value_or_errors ≠ [] →
  Update request s =
    (if decide (applied.1.2 = [])
     then (failed INTERNAL
             ("Applying gradient update returned error: " +:+ applied.2), s2)
     else (Done UpdateResponse.Build_t,
           with_store (with_calls s2 [BatchUpdate_call h valid_keys applied.1.2])
             h (BatchUpdate kb1 valid_keys applied.1.2))) ∧
  valid_keys `sublist_of` keys ∧
  length valid_keys = length embeddings ∧
  length gradients = length keys ∧
  ((∃ i e, value_or_errors !! i = Some (inr e)) →
     length embeddings < length gradients ∧ valid_keys ≠ keys ∧
     ∃ i k, keys !! i = Some k ∧ valid_keys !! i ≠ Some k).
Proof.
  intros h keys gradients kb1 s1 value_or_errors valid_keys embeddings applied
    s2 Hh Hgrads Hs Hkb Hgd Hlen Hvalid.
  split; [|split; [|split; [|split]]].
  - rewrite (Update_run request s s0 kb); try done.
    + unfold bind. change (after_values request s0 kb) with s1.
      rewrite (Update_gradients_run request s1 kb1 gd); try done.
      * fold h keys gradients value_or_errors valid_keys embeddings applied s2.
        by case_decide.
      * by apply after_values_store.
      * unfold s1. by rewrite after_values_optimizer.
    + intros [?|[_ ?]]; done.
  - apply valid_sublist.
  - unfold valid_keys, embeddings. by rewrite !length_fmap.
  - unfold gradients, keys. by rewrite !length_fmap.
  - intros (i & e & Hi).
    assert (length (valid keys value_or_errors) < length keys) as Hlt.
    { eapply valid_length_lt; [|done]. rewrite <-Hlen.
      by eapply lookup_lt_Some. }
    unfold embeddings, gradients, valid_keys. rewrite !length_fmap.
    split; [|split].
    + unfold keys in Hlt. by rewrite length_fmap in Hlt.
    + intros Heq. apply (f_equal length) in Heq.
      rewrite length_fmap in Heq. lia.
    + destruct (lookup_lt_is_Some_2 keys (length (valid keys value_or_errors)))
        as [k Hk]; [done|].
      exists (length (valid keys value_or_errors)), k. split; [done|].
      rewrite lookup_ge_None_2; [done|]. by rewrite length_fmap.
Qed.

(** A gradients branch that leaves early has not touched any store, and
    the calls recorded before it are still recorded. *)
Lemma Update_gradients_Exit request s1 e s' :
  Update_gradients request s1 = (Exit e, s') →
  es_map_ s' = es_map_ s1 ∧ ∃ cs, calls s' = calls s1 ++ cs.
Proof.
  unfold Update_gradients. unfold_rpc. cbn.
  repeat case_match; intros; simplify_eq; cbn.
  all: try (split; [done|]); rewrite <-?(assoc_L (++)); try by eexists.
  exists []. by rewrite app_nil_r.
Qed.

(** C9.  An accepted [Update] that carries both values and gradients and
    whose session is there after the creation step: whenever the call
    leaves early, it does so with an internal error, the store of the
    session is the one the values branch has written, and the batch
    overwrite stays recorded.  The call does leave early when no optimizer
    is registered, when no fetch succeeds, and when the optimizer returns
    no vector. *)
Theorem Update_values_not_rolled_back request s s0 kb :
  let h := UpdateRequest.session_handle request in
  let keys := (UpdateRequest.gradients request).*1 in
  let gradients := (UpdateRequest.gradients request).*2 in
  let value_keys := (UpdateRequest.values request).*1 in
  let values := (UpdateRequest.values request).*2 in
  let kb1 := BatchUpdate kb value_keys values in
  let s1 := with_store (with_calls s0 [BatchUpdate_call h value_keys values]) h kb1 in
  let value_or_errors := BatchLookup kb1 keys in
  let embeddings := (valid keys value_or_errors).*2 in
  h ≠ "" →
  UpdateRequest.values request ≠ [] →
  UpdateRequest.gradients request ≠ [] →
  StartSessionIfNecessary h s = (Done (), s0) →
  es_map_ s0 !! h = Some kb →
  (∀ e s', Update request s = (Exit e, s') →
     error_code e = INTERNAL ∧
     es_map_ s' = <[h := kb1]> (es_map_ s0) ∧
     BatchUpdate_call h value_keys values ∈ calls s') ∧
  (gd_map_ s0 !! h = None →
     Update request s =
       (failed INTERNAL
          ("Optimizer is not created, did you forget to add " +:+
           "gradient_descent_config in DynamicEmbeddingConfig?"), s1)) ∧
  (is_Some (gd_map_ s0 !! h) →
   length value_or_errors = length keys →
   valid keys value_or_errors = [] →
     Update request s =
       (failed INTERNAL "No valid keys for gradient update.",
        with_calls s1 [BatchLookup_call h keys])) ∧
  (∀ gd, gd_map_ s0 !! h = Some gd →
   length value_or_errors = length keys →
   valid keys value_or_errors ≠ [] →
   (Apply gd embeddings gradients).1.2 = [] →
     Update request s =
       (failed INTERNAL
          ("Applying gradient update returned error: " +:+
           (Apply gd embeddings gradients).2),
        with_optimizer
          (with_calls s1 [BatchLookup_call h keys;
                          Apply_call h embeddings gradients])
          h (Apply gd embeddings gradients).1.1)).
Proof.
  intros h keys gradients value_keys values kb1 s1 value_or_errors embeddings
    Hh Hvalues Hgrads Hs Hkb.
  assert (after_values request s0 kb = s1) as Hafter.
  { unfold after_values, store_after_values. by rewrite !decide_False. }
  assert (Update request s =
          bind (Update_gradients request) (λ _, ret UpdateResponse.Build_t) s1)
    as Hrun.
  { rewrite <-Hafter. apply Update_run; try done. intros [?|[? _]]; done. }
  assert (es_map_ s1 !! h = Some kb1) as Hkb1 by apply lookup_insert_eq.
  rewrite Hrun. unfold bind. split; [|split; [|split]].
  - intros e s'.
    destruct (Update_gradients request s1) as [[[]|e0|] s2] eqn:Hgrad;
      [done| |done].
    intros [= <- <-]. split; [by eapply exits_internal_Update_gradients|].
    apply Update_gradients_Exit in Hgrad as [-> [cs ->]]. split; [done|].
    cbn. set_solver.
  - intros Hgd. unfold Update_gradients. rewrite decide_False by done.
    unfold_rpc. subst s1. cbn. fold h. by rewrite Hgd.
  - intros [gd Hgd] Hlen Hvalid. unfold Update_gradients.
    rewrite decide_False by done. unfold_rpc. subst s1. cbn. fold h keys.
    rewrite Hgd. cbn. rewrite lookup_insert_eq. cbn.
    fold kb1 value_or_errors. rewrite decide_False by (by intros []).
    rewrite collect_valid_spec, Hvalid. cbn.
    unfold failed, with_calls. cbn. by rewrite <-(assoc_L (++)).
  - intros gd Hgd Hlen Hvalid Hfail.
    rewrite (Update_gradients_run request s1 kb1 gd); try done.
    fold h keys gradients value_or_errors embeddings.
    by rewrite decide_True.
Qed.

(** *** No handler dereferences a missing entry *)

Lemma Lookup_no_Crash request s s' : Lookup request s ≠ (Crash, s').
Proof.
  unfold Lookup. repeat case_decide; try done. unfold bind at 1.
  destruct (StartSessionIfNecessary _ s) as [[[]|e|] s0] eqn:Hrun; [|done|].
  - destruct (StartSessionIfNecessary_Done _ _ _ Hrun) as [[kb Hkb] _].
    destruct (LookupRequest.update request); unfold_rpc; cbn; rewrite Hkb; cbn.
    + destruct (BatchLookupWithUpdate kb _). cbn. by case_decide.
    + by case_decide.
  - by apply StartSessionIfNecessary_no_Crash in Hrun.
Qed.

Lemma Update_gradients_no_Crash request s1 s' :
  is_Some (es_map_ s1 !! UpdateRequest.session_handle request) →
  Update_gradients request s1 ≠ (Crash, s').
Proof.
  intros [kb Hkb]. unfold Update_gradients. unfold_rpc. cbn.
  case_decide; [done|].
  destruct (gd_map_ s1 !! _) as [gd|] eqn:Hgd; cbn; [|done].
  rewrite Hkb. cbn. case_decide; [done|].
  destruct (collect_valid _ _) as [valid_keys embeddings].
  case_decide; [done|]. cbn. rewrite Hgd. cbn.
  destruct (Apply gd embeddings _) as [[gd' updated] error_msg]. cbn.
  case_decide; [done|]. cbn. by rewrite Hkb.
Qed.

Lemma Update_no_Crash request s s' : Update request s ≠ (Crash, s').
Proof.
  unfold Update. repeat case_decide; try done. unfold bind at 1.
  destruct (StartSessionIfNecessary _ s) as [[[]|e|] s0] eqn:Hrun; [|done|].
  - destruct (StartSessionIfNecessary_Done _ _ _ Hrun) as [[kb Hkb] _].
    unfold bind at 1. rewrite (Update_values_run _ _ kb Hkb). unfold bind.
    destruct (Update_gradients request _) as [[[]|e|] s2] eqn:Hgrad; [done..|].
    apply Update_gradients_no_Crash in Hgrad; [done|].
    rewrite (after_values_store _ _ _ Hkb). by eexists.
  - by apply StartSessionIfNecessary_no_Crash in Hrun.
Qed.

(** *** A call touches no session but its own *)

Lemma only_touches_bind {A B} h (m : rpc A) (f : A → rpc B) :
  only_touches h m → (∀ a, only_touches h (f a)) → only_touches h (bind m f).
Proof.
  intros Hm Hf s o s'. unfold bind.
  destruct (m s) as [[a|e|] s0] eqn:Hms; intros Hrun h' Hne.
  - destruct (Hm _ _ _ Hms h' Hne) as [<- <-]. by eapply Hf.
  - simplify_eq. by eapply Hm.
  - simplify_eq. by eapply Hm.
Qed.

Lemma only_touches_ret {A} h (a : A) : only_touches h (ret a).
Proof. intros s o s' [= <- <-]. done. Qed.

Lemma only_touches_exit_with {A} h c msg : only_touches h (@exit_with _ _ A c msg).
Proof. intros s o s' [= <- <-]. done. Qed.

Ltac solve_only_touches :=
  intros s o s'; unfold_rpc; cbn;
  repeat case_match; intros; simplify_eq; cbn;
  rewrite ?lookup_insert_ne by done; done.

Lemma only_touches_StartSessionIfNecessary h :
  only_touches h (StartSessionIfNecessary h).
Proof. unfold StartSessionIfNecessary. solve_only_touches. Qed.

Lemma only_touches_es_BatchUpdate h keys vals :
  only_touches h (es_BatchUpdate h keys vals).
Proof. solve_only_touches. Qed.

Lemma only_touches_es_BatchLookup h keys :
  only_touches h (es_BatchLookup h keys).
Proof. solve_only_touches. Qed.

Lemma only_touches_es_BatchLookupWithUpdate h keys :
  only_touches h (es_BatchLookupWithUpdate h keys).
Proof. solve_only_touches. Qed.

Lemma only_touches_gd_Apply h embeddings gradients :
  only_touches h (gd_Apply h embeddings gradients).
Proof. solve_only_touches. Qed.

Lemma only_touches_gd_contains h : only_touches h (gd_contains h).
Proof. solve_only_touches. Qed.

Lemma only_touches_Update_values request :
  only_touches (UpdateRequest.session_handle request) (Update_values request).
Proof.
  unfold Update_values. case_decide.
  - apply only_touches_ret.
  - apply only_touches_es_BatchUpdate.
Qed.

Lemma only_touches_Update_gradients request :
  only_touches (UpdateRequest.session_handle request) (Update_gradients request).
Proof.
  unfold Update_gradients. case_decide; [apply only_touches_ret|].
  apply only_touches_bind; [apply only_touches_gd_contains|].
  intros []; cbn; [|apply only_touches_exit_with].
  apply only_touches_bind; [apply only_touches_es_BatchLookup|].
  intros value_or_errors. case_decide; [apply only_touches_exit_with|].
  destruct (collect_valid _ _) as [valid_keys embeddings].
  case_decide; [apply only_touches_exit_with|].
  apply only_touches_bind; [apply only_touches_gd_Apply|].
  intros [updated error_msg]. case_decide; [apply only_touches_exit_with|].
  apply only_touches_es_BatchUpdate.
Qed.

Lemma only_touches_Update request :
  only_touches (UpdateRequest.session_handle request) (Update request).
Proof.
  unfold Update. repeat case_decide; try apply only_touches_exit_with.
  apply only_touches_bind; [apply only_touches_StartSessionIfNecessary|].
  intros ?. apply only_touches_bind; [apply only_touches_Update_values|].
  intros ?. apply only_touches_bind; [apply only_touches_Update_gradients|].
  intros ?. apply only_touches_ret.
Qed.



(** *** The history of calls is never read *)

Lemma ignores_calls_bind {A B} (m : rpc A) (f : A → rpc B) :
  ignores_calls m → (∀ a, ignores_calls (f a)) → ignores_calls (bind m f).
Proof.
  intros Hm Hf s s' Hss. unfold bind.
  destruct (Hm s s' Hss) as [Ho Hs].
  destruct (m s) as [o s1], (m s') as [o' s1']. cbn in *. subst o'.
  destruct o as [a|e|]; [by apply Hf|done..].
Qed.

Lemma ignores_calls_ret {A} (a : A) : ignores_calls (ret a).
Proof. by intros s s' Hss. Qed.

Lemma ignores_calls_exit_with {A} c msg : ignores_calls (@exit_with _ _ A c msg).
Proof. by intros s s' Hss. Qed.

Ltac solve_ignores_calls :=
  intros [es0 gd0 cs0] [es1 gd1 cs1] [Hes Hgd]; cbn in Hes, Hgd; subst es1 gd1;
  unfold_rpc; cbn; repeat case_match; simplify_eq; done.

Lemma ignores_calls_es_contains h : ignores_calls (es_contains h).
Proof. solve_ignores_calls. Qed.

Lemma ignores_calls_gd_contains h : ignores_calls (gd_contains h).
Proof. solve_ignores_calls. Qed.

Lemma ignores_calls_record c : ignores_calls (record c).
Proof. solve_ignores_calls. Qed.

Lemma ignores_calls_set_es h kb : ignores_calls (set_es h kb).
Proof. solve_ignores_calls. Qed.

Lemma ignores_calls_set_gd h gd : ignores_calls (set_gd h gd).
Proof. solve_ignores_calls. Qed.

Lemma ignores_calls_es_BatchLookup h keys : ignores_calls (es_BatchLookup h keys).
Proof. solve_ignores_calls. Qed.

Lemma ignores_calls_es_BatchLookupWithUpdate h keys :
  ignores_calls (es_BatchLookupWithUpdate h keys).
Proof.
  intros [es0 gd0 cs0] [es1 gd1 cs1] [Hes Hgd]; cbn in Hes, Hgd; subst es1 gd1.
  unfold_rpc. cbn. destruct (es0 !! h) as [kb|]; [|done]. cbn.
  by destruct (BatchLookupWithUpdate kb keys).
Qed.

Lemma ignores_calls_StartSessionIfNecessary h :
  ignores_calls (StartSessionIfNecessary h).
Proof.
  unfold StartSessionIfNecessary.
  apply ignores_calls_bind; [apply ignores_calls_es_contains|]. intros present.
  apply ignores_calls_bind.
  - destruct present; cbn; [apply ignores_calls_ret|].
    apply ignores_calls_bind; [apply ignores_calls_record|]. intros ?.
    case_match; [apply ignores_calls_set_es|apply ignores_calls_exit_with].
  - intros ?. apply ignores_calls_bind; [apply ignores_calls_gd_contains|].
    intros has_optimizer. case_match; [|apply ignores_calls_ret].
    destruct has_optimizer; cbn; [apply ignores_calls_ret|].
    apply ignores_calls_bind; [apply ignores_calls_record|]. intros ?.
    case_match; [apply ignores_calls_set_gd|apply ignores_calls_exit_with].
Qed.

Lemma ignores_calls_Lookup request : ignores_calls (Lookup request).
Proof.
  unfold Lookup. repeat case_decide; try apply ignores_calls_exit_with.
  apply ignores_calls_bind; [apply ignores_calls_StartSessionIfNecessary|].
  intros ?. apply ignores_calls_bind.
  - case_match; [apply ignores_calls_es_BatchLookupWithUpdate
                |apply ignores_calls_es_BatchLookup].
  - intros value_or_errors.
    case_decide; [apply ignores_calls_exit_with|apply ignores_calls_ret].
Qed.

(** The store of a session after the creation step is the one it had, or
    a store the factory has just made. *)
Lemma StartSessionIfNecessary_store h s o s0 :
  StartSessionIfNecessary h s = (o, s0) →
  es_map_ s0 !! h = es_map_ s !! h ∨
  (es_map_ s !! h = None ∧
   ∃ kb, KnowledgeBankFactory_Make
           (DynamicEmbeddingConfig.knowledge_bank_config
              (StartSessionRequest.config (ParseFromString h)))
           (DynamicEmbeddingConfig.embedding_dimension
              (StartSessionRequest.config (ParseFromString h))) = Some kb ∧
         es_map_ s0 !! h = Some kb).
Proof.
  unfold StartSessionIfNecessary. unfold_rpc. cbn.
  repeat case_match; intros; simplify_eq; cbn in *;
    rewrite ?lookup_insert_eq; eauto.
Qed.

(** A [Lookup] that succeeds has passed the creation step and returns the
    table filled from what it fetched. *)
Lemma Lookup_Done_inv request s response s' :
  Lookup request s = (Done response, s') →
  ∃ s0 kb0,
    StartSessionIfNecessary (LookupRequest.session_handle request) s = (Done (), s0) ∧
    es_map_ s0 !! LookupRequest.session_handle request = Some kb0 ∧
    LookupResponse.embedding_table response =
      fill_embedding_table (LookupRequest.key request)
        (fetch (LookupRequest.update request) kb0 (LookupRequest.key request)).2 ∧
    es_map_ s' !! LookupRequest.session_handle request =
      Some (fetch (LookupRequest.update request) kb0 (LookupRequest.key request)).1.
Proof.
  unfold Lookup. repeat case_decide; try done. unfold bind at 1.
  destruct (StartSessionIfNecessary _ s) as [[[]|e|] s0] eqn:Hrun; try done.
  unfold fetch. destruct (LookupRequest.update request); unfold_rpc; cbn;
    destruct (es_map_ s0 !! _) as [kb0|] eqn:Hkb; try done; cbn.
  - destruct (BatchLookupWithUpdate kb0 _) as [kb1 value_or_errors] eqn:Hfetch.
    cbn. case_decide; [done|]. intros [= <- <-]. cbn.
    rewrite lookup_insert_eq. exists s0, kb0. by rewrite Hfetch.
  - case_decide; [done|]. intros [= <- <-]. cbn. eauto 10.
Qed.

(** The store of the session after an [Update] without gradients: the one
    found or made by the creation step, or that store overwritten by the
    values branch. *)
Lemma Update_values_only_store request s o s' :
  UpdateRequest.gradients request = [] →
  Update request s = (o, s') →
  es_map_ s' !! UpdateRequest.session_handle request =
    es_map_ s !! UpdateRequest.session_handle request ∨
  ∃ s0 o0 kb0,
    StartSessionIfNecessary (UpdateRequest.session_handle request) s = (o0, s0) ∧
    es_map_ s0 !! UpdateRequest.session_handle request = Some kb0 ∧
    (es_map_ s' !! UpdateRequest.session_handle request = Some kb0 ∨
     es_map_ s' !! UpdateRequest.session_handle request =
       Some (BatchUpdate kb0 (UpdateRequest.values request).*1
               (UpdateRequest.values request).*2)).
Proof.
  intros Hgrads. unfold Update.
  case_decide; [intros [= <- <-]; by left|].
  case_decide; [intros [= <- <-]; by left|].
  unfold bind at 1.
  destruct (StartSessionIfNecessary _ s) as [[[]|e|] s0] eqn:Hrun.
  - destruct (StartSessionIfNecessary_Done _ _ _ Hrun) as [[kb0 Hkb0] _].
    unfold bind at 1. rewrite (Update_values_run _ _ kb0 Hkb0).
    unfold Update_gradients. rewrite decide_True by done.
    unfold bind, ret. intros [= <- <-]. right. exists s0, (Done ()), kb0.
    split; [done|]. split; [done|].
    rewrite (after_values_store _ _ _ Hkb0). unfold store_after_values.
    case_decide; eauto.
  - intros [= <- <-].
    destruct (StartSessionIfNecessary_store _ _ _ _ Hrun) as [->|(_ & kb & _ & Hkb)];
      [by left|]. right. exists s0, (Exit e), kb. eauto.
  - by apply StartSessionIfNecessary_no_Crash in Hrun.
Qed.

(** The store of the session after a [Lookup]: the one found or made by
    the creation step, or that store after the fetch. *)
Lemma Lookup_store request s o s' :
  Lookup request s = (o, s') →
  es_map_ s' !! LookupRequest.session_handle request =
    es_map_ s !! LookupRequest.session_handle request ∨
  ∃ s0 o0 kb0,
    StartSessionIfNecessary (LookupRequest.session_handle request) s = (o0, s0) ∧
    es_map_ s0 !! LookupRequest.session_handle request = Some kb0 ∧
    (es_map_ s' !! LookupRequest.session_handle request = Some kb0 ∨
     es_map_ s' !! LookupRequest.session_handle request =
       Some (fetch (LookupRequest.update request) kb0
               (LookupRequest.key request)).1).
Proof.
  unfold Lookup.
  case_decide; [intros [= <- <-]; by left|].
  case_decide; [intros [= <- <-]; by left|].
  unfold bind at 1.
  destruct (StartSessionIfNecessary _ s) as [[[]|e|] s0] eqn:Hrun.
  - destruct (StartSessionIfNecessary_Done _ _ _ Hrun) as [[kb0 Hkb0] _].
    intros Hrest. right. exists s0, (Done ()), kb0. split; [done|].
    split; [done|]. revert Hrest. unfold fetch.
    destruct (LookupRequest.update request); unfold_rpc; cbn; rewrite Hkb0; cbn.
    + destruct (BatchLookupWithUpdate kb0 _) as [kb1 value_or_errors]. cbn.
      case_decide; intros [= <- <-]; cbn; rewrite lookup_insert_eq; by right.
    + case_decide; intros [= <- <-]; cbn; by left.
  - intros [= <- <-].
    destruct (StartSessionIfNecessary_store _ _ _ _ Hrun) as [->|(_ & kb & _ & Hkb)];
      [by left|]. right. exists s0, (Exit e), kb. eauto.
  - by apply StartSessionIfNecessary_no_Crash in Hrun.
Qed.

End ServiceFacts.


(** ** Facts about the batch manager *)

Section ManagerFacts.
Context `{KB : KnowledgeBankInterface} `{GD : GradientDescentInterface}.
Context `{Codec : !SessionCodec}.

Implicit Types (m : DynamicEmbeddingManager.t) (w : DynamicEmbeddingManager.World).

(** C6.  [UpdateValues] rejects, without a call to the service, an empty
    key batch (a default-constructed tensor is one), then a key count other
    than the outer count of the values, then a trailing axis other than the
    configured dimension, each with its own message; the messages of the
    test are instances. *)
Theorem UpdateValues_invalid_inputs m keys vals w :
  let n_keys := Tensor.NumElements keys in
  let n_values := Tensor.outer_count vals in
  let d := Tensor.trailing vals in
  let expected := DynamicEmbeddingManager.dimension m in
  let rejected msg :=
    DynamicEmbeddingManager.UpdateValues m keys vals w =
      (failed INVALID_ARGUMENT msg, w) in
  (n_keys = 0 → rejected "Input key is empty.") ∧
  (keys = Tensor.empty → rejected "Input key is empty.") ∧
  (n_keys ≠ 0 → n_keys ≠ n_values →
     rejected ("Inconsistent keys size and values size: " +:+ pretty n_keys +:+
               " v.s. " +:+ pretty n_values)) ∧
  (n_keys ≠ 0 → n_keys = n_values → d ≠ expected →
     rejected ("Inconsistent embedding dimension, got " +:+ pretty d +:+
               " expect " +:+ pretty expected)) ∧
  (expected = 2 → Tensor.shape keys = [3] → Tensor.shape vals = [2; 2] →
     rejected "Inconsistent keys size and values size: 3 v.s. 2") ∧
  (expected = 2 → Tensor.shape keys = [3] → Tensor.shape vals = [3; 4] →
     rejected "Inconsistent embedding dimension, got 4 expect 2").
Proof.
  intros n_keys n_values d expected rejected.
  unfold rejected, DynamicEmbeddingManager.UpdateValues,
    DynamicEmbeddingManager.CheckInput.
  fold n_keys n_values d expected.
  split; [|split; [|split; [|split; [|split]]]].
  - intros Hn. by rewrite decide_True.
  - intros Hk. unfold n_keys. by rewrite Hk.
  - intros Hn Hne. by rewrite decide_False, decide_True.
  - intros Hn Heq Hd. rewrite (decide_False (P := n_keys = 0)) by done.
    rewrite (decide_False (P := n_keys ≠ n_values)) by tauto.
    by rewrite decide_True.
  - intros He Hk Hv. unfold n_keys, n_values, Tensor.NumElements,
      Tensor.outer_count. rewrite Hk, Hv. by cbn.
  - intros He Hk Hv. unfold n_keys, n_values, d, Tensor.NumElements,
      Tensor.outer_count, Tensor.trailing. rewrite Hk, Hv, He. by cbn.
Qed.

(** *** Export and Import *)

Lemma call_files {A} (c : rpc A) w :
  DynamicEmbeddingManager.files (DynamicEmbeddingManager.call c w).2 =
  DynamicEmbeddingManager.files w.
Proof. unfold DynamicEmbeddingManager.call. by destruct (c _). Qed.

Lemma call_server {A} (c : rpc A) w :
  DynamicEmbeddingManager.server (DynamicEmbeddingManager.call c w).2 =
  (c (DynamicEmbeddingManager.server w)).2.
Proof. unfold DynamicEmbeddingManager.call. by destruct (c _). Qed.

(** [UpdateValues] writes no file and touches no session but its own. *)
Lemma UpdateValues_frame m keys vals w :
  let w' := (DynamicEmbeddingManager.UpdateValues m keys vals w).2 in
  DynamicEmbeddingManager.files w' = DynamicEmbeddingManager.files w ∧
  ∀ h', h' ≠ DynamicEmbeddingManager.session_handle_ m →
    es_map_ (DynamicEmbeddingManager.server w') !! h' =
      es_map_ (DynamicEmbeddingManager.server w) !! h' ∧
    gd_map_ (DynamicEmbeddingManager.server w') !! h' =
      gd_map_ (DynamicEmbeddingManager.server w) !! h'.
Proof.
  unfold DynamicEmbeddingManager.UpdateValues.
  destruct (DynamicEmbeddingManager.CheckInput m keys vals); [done|].
  set (request := {| UpdateRequest.session_handle := _ |}).
  pose proof (call_files (Update request) w) as Hfiles.
  pose proof (call_server (Update request) w) as Hserver.
  destruct (DynamicEmbeddingManager.call (Update request) w) as [o w'] eqn:Hcall.
  cbn in Hfiles, Hserver.
  destruct (Update request (DynamicEmbeddingManager.server w)) as [o' s'] eqn:Hrun.
  pose proof (only_touches_Update request _ _ _ Hrun) as Htouch.
  destruct o; cbn; (split; [done|]); intros h' Hne; rewrite Hserver;
    by apply Htouch.
Qed.

(** C4.  [Export] returns the path
    [{directory}/{name}/embedding_store_meta_data.pbtxt]; after an
    [UpdateValues] on any batch, [Import] of that path succeeds and gives
    the service the stores and optimizers it had at export time, so that
    every [Lookup] yields what it yielded before the mutation. *)
Theorem Export_Import_round_trip m w kb directory keys vals lookup_keys update :
  es_map_ (DynamicEmbeddingManager.server w)
    !! DynamicEmbeddingManager.session_handle_ m = Some kb →
  let path :=
    directory +:+ "/" +:+ DynamicEmbeddingManager.name_ m +:+
    "/embedding_store_meta_data.pbtxt" in
  ∃ w1 w3,
    DynamicEmbeddingManager.Export m directory w = (Done path, w1) ∧
    DynamicEmbeddingManager.Import m path
      (DynamicEmbeddingManager.UpdateValues m keys vals w1).2 = (Done (), w3) ∧
    es_map_ (DynamicEmbeddingManager.server w3) =
      es_map_ (DynamicEmbeddingManager.server w) ∧
    gd_map_ (DynamicEmbeddingManager.server w3) =
      gd_map_ (DynamicEmbeddingManager.server w) ∧
    (DynamicEmbeddingManager.Lookup m lookup_keys update w3).1 =
      (DynamicEmbeddingManager.Lookup m lookup_keys update w).1.
Proof.
  intros Hkb path. set (h := DynamicEmbeddingManager.session_handle_ m) in *.
  unfold DynamicEmbeddingManager.Export. fold h. rewrite Hkb.
  change (DynamicEmbeddingManager.export_path directory
            (DynamicEmbeddingManager.name_ m)) with path.
  eexists _, _. split; [done|].
  set (w1 := {| DynamicEmbeddingManager.server := _ |}).
  destruct (UpdateValues_frame m keys vals w1) as [Hfiles Hframe].
  set (w2 := (DynamicEmbeddingManager.UpdateValues m keys vals w1).2) in *.
  unfold DynamicEmbeddingManager.Import. rewrite Hfiles. cbn.
  rewrite lookup_insert_eq. cbn. fold h.
  assert (es_map_ (DynamicEmbeddingManager.server w) =
          <[h:=kb]> (es_map_ (DynamicEmbeddingManager.server w2))) as Hes.
  { apply map_eq. intros h'. destruct (decide (h' = h)) as [->|Hne].
    - by rewrite lookup_insert_eq.
    - rewrite lookup_insert_ne by done. symmetry. by apply Hframe. }
  assert (gd_map_ (DynamicEmbeddingManager.server w) =
          match gd_map_ (DynamicEmbeddingManager.server w) !! h with
          | Some gd => <[h:=gd]> (gd_map_ (DynamicEmbeddingManager.server w2))
          | None => delete h (gd_map_ (DynamicEmbeddingManager.server w2))
          end) as Hgd.
  { apply map_eq. intros h'. destruct (decide (h' = h)) as [->|Hne].
    - destruct (gd_map_ _ !! h) eqn:Hl;
        by rewrite ?lookup_insert_eq, ?lookup_delete_eq.
    - destruct (gd_map_ (DynamicEmbeddingManager.server w) !! h);
        rewrite ?lookup_insert_ne, ?lookup_delete_ne by done;
        symmetry; by apply Hframe. }
  split; [done|]. cbn. split; [done|]. split; [done|].
  unfold DynamicEmbeddingManager.Lookup. case_decide; [done|].
  set (request := {| LookupRequest.session_handle := _ |}).
  set (s3 := {| es_map_ := _ |}).
  destruct (ignores_calls_Lookup request s3 (DynamicEmbeddingManager.server w))
    as [Ho _]; [by split|].
  unfold DynamicEmbeddingManager.call. cbn.
  destruct (Lookup request s3) as [o3 s3'],
    (Lookup request (DynamicEmbeddingManager.server w)) as [o s']. cbn in Ho.
  subst o3. by destruct o.
Qed.

(** *** Rows of a batch and keys of a proto map *)

Lemma row_mjoin {A} (d : nat) (rows : list (list A)) sh i r :
  Forall (λ r, length r = d) rows → rows !! i = Some r →
  Tensor.row d i {| Tensor.shape := sh; Tensor.flat := mjoin rows |} = r.
Proof.
  unfold Tensor.row. cbn. intros Hrows. revert i r.
  induction Hrows as [|r0 rows Hr0 Hrows IH]; intros [|i] r Hi; cbn in *;
    [done|done|..].
  - injection Hi as ->. by rewrite drop_0, take_app_length'.
  - rewrite drop_app_add' by done. by apply IH.
Qed.

Lemma map_assign_keys {V} k (v : V) (m : list (string * V)) k' :
  k' ∈ (DynamicEmbeddingManager.map_assign k v m).*1 → k' = k ∨ k' ∈ m.*1.
Proof.
  induction m as [|[k0 v0] m IH]; cbn.
  - rewrite list_elem_of_singleton. by left.
  - case_decide; cbn; rewrite !elem_of_cons; [subst; tauto|].
    intros [->|Hin]; [tauto|]. destruct (IH Hin); tauto.
Qed.

Lemma to_proto_map_keys d keys vals k :
  k ∈ (DynamicEmbeddingManager.to_proto_map d keys vals).*1 →
  k ≠ "" ∧ k ∈ Tensor.flat keys.
Proof.
  unfold DynamicEmbeddingManager.to_proto_map.
  generalize (seq 0 (Tensor.NumElements keys)). intros l.
  assert (∀ k, k ∈ (@nil (string * EmbeddingVectorProto)).*1 →
               k ≠ "" ∧ k ∈ Tensor.flat keys) as Hacc
    by (intros ? ?%elem_of_nil; done).
  revert Hacc. generalize (@nil (string * EmbeddingVectorProto)). revert k.
  induction l as [|i l IH]; intros k acc Hacc; cbn; [by apply Hacc|].
  apply IH. intros k'.
  destruct (Tensor.flat keys !! i) as [ki|] eqn:Hi; [|by apply Hacc].
  case_decide; [by apply Hacc|].
  intros [->|Hin]%map_assign_keys; [|by apply Hacc].
  split; [done|]. by eapply list_elem_of_lookup_2.
Qed.

(** *** The world after a call of the manager *)

Lemma UpdateValues_world m keys vals w :
  (DynamicEmbeddingManager.UpdateValues m keys vals w).2 =
  match DynamicEmbeddingManager.CheckInput m keys vals with
  | Some _ => w
  | None =>
      (DynamicEmbeddingManager.call
         (Update {| UpdateRequest.session_handle :=
                      DynamicEmbeddingManager.session_handle_ m;
                    UpdateRequest.values :=
                      DynamicEmbeddingManager.to_proto_map
                        (DynamicEmbeddingManager.dimension m) keys vals;
                    UpdateRequest.gradients := [] |}) w).2
  end.
Proof.
  unfold DynamicEmbeddingManager.UpdateValues.
  destruct (DynamicEmbeddingManager.CheckInput m keys vals); [done|].
  by destruct (DynamicEmbeddingManager.call _ w) as [[] ?].
Qed.

Lemma Lookup_world m keys update w :
  (DynamicEmbeddingManager.Lookup m keys update w).2 =
  if decide (Tensor.NumElements keys = 0) then w
  else
    (DynamicEmbeddingManager.call
       (Lookup {| LookupRequest.session_handle :=
                    DynamicEmbeddingManager.session_handle_ m;
                  LookupRequest.key := Tensor.flat keys;
                  LookupRequest.update := update |}) w).2.
Proof.
  unfold DynamicEmbeddingManager.Lookup. case_decide; [done|].
  by destruct (DynamicEmbeddingManager.call _ w) as [[] ?].
Qed.

(** A [Lookup] of the manager that succeeds is a [Lookup] of the service
    that succeeds, scattered into the output batch. *)
Lemma Lookup_Done m keys update w out w' :
  DynamicEmbeddingManager.Lookup m keys update w = (Done out, w') →
  ∃ response s',
    Lookup {| LookupRequest.session_handle :=
                DynamicEmbeddingManager.session_handle_ m;
              LookupRequest.key := Tensor.flat keys;
              LookupRequest.update := update |}
      (DynamicEmbeddingManager.server w) = (Done response, s') ∧
    out = {| Tensor.shape :=
               Tensor.shape keys ++ [DynamicEmbeddingManager.dimension m];
             Tensor.flat :=
               mjoin (DynamicEmbeddingManager.output_row
                        (DynamicEmbeddingManager.dimension m)
                        (LookupResponse.embedding_table response)
                      <$> Tensor.flat keys) |}.
Proof.
  unfold DynamicEmbeddingManager.Lookup, DynamicEmbeddingManager.call.
  case_decide; [done|].
  destruct (Lookup _ (DynamicEmbeddingManager.server w)) as [[response|e|] s'];
    [|done..].
  intros [= <- <-]. eauto.
Qed.

Lemma output_row_length d table k :
  length (DynamicEmbeddingManager.output_row d table k) = d.
Proof.
  unfold DynamicEmbeddingManager.output_row.
  repeat case_match; by rewrite ?length_replicate, ?length_resize.
Qed.

End ManagerFacts.


(** ** Facts about the fixture: the in-proto store and SGD *)

Section FixtureFacts.
Import Fixture Wire Test.

Implicit Types (kb : InProtoKnowledgeBank) (k : string).

Lemma resize_zeros (d : nat) (l : list float) :
  Forall (λ x, x = F32.zero) l → resize d F32.zero l = replicate d F32.zero.
Proof.
  intros Hl. assert (l = replicate (length l) F32.zero) as ->.
  { symmetry. apply replicate_as_Forall. split; [done|].
    eapply Forall_impl; [exact Hl|]. by intros x ->. }
  apply resize_replicate.
Qed.

Lemma reads_zero_zeros n : reads_zero (Some (F32.zeros n)).
Proof. cbn. apply Forall_replicate. done. Qed.

Lemma InProto_Make_empty cfg dim kb :
  InProto_Make cfg dim = Some kb → embedding_data kb = ∅.
Proof. unfold InProto_Make. repeat case_match; intros; by simplify_eq. Qed.

Lemma InProto_BatchUpdate_notin kb ks vs k :
  k ∉ ks →
  embedding_data (InProto_BatchUpdate kb ks vs) !! k = embedding_data kb !! k.
Proof.
  unfold InProto_BatchUpdate. cbn. generalize (embedding_data kb). revert vs.
  induction ks as [|k0 ks IH]; intros [|v vs] data Hk; cbn; try done.
  apply not_elem_of_cons in Hk as [Hne Hk].
  rewrite IH by done. by rewrite lookup_insert_ne.
Qed.

Lemma InProto_BatchLookup_value kb keys i k v :
  keys !! i = Some k → InProto_BatchLookup kb keys !! i = Some (inl v) →
  embedding_data kb !! k = Some v.
Proof.
  unfold InProto_BatchLookup, InProto_Lookup. rewrite list_lookup_fmap.
  intros ->. cbn. by destruct (embedding_data kb !! k); intros [= <-].
Qed.

(** The create-on-miss read: every result is a vector, the one the store
    held or the zero vector it has just created; the store gains nothing
    but such zero vectors. *)
Lemma InProto_BatchLookupWithUpdate_spec kb keys :
  let kb' := (InProto_BatchLookupWithUpdate kb keys).1 in
  let rs := (InProto_BatchLookupWithUpdate kb keys).2 in
  let zeros := F32.zeros (Z.to_nat (kb_dimension kb)) in
  kb_dimension kb' = kb_dimension kb ∧
  length rs = length keys ∧
  (∀ k, embedding_data kb' !! k = embedding_data kb !! k ∨
        (embedding_data kb !! k = None ∧ embedding_data kb' !! k = Some zeros)) ∧
  (∀ i k v, keys !! i = Some k → rs !! i = Some (inl v) →
        embedding_data kb !! k = Some v ∨
        (embedding_data kb !! k = None ∧ v = zeros)).
Proof.
  revert kb. induction keys as [|k0 keys IH]; intros kb; cbn.
  { repeat split; eauto. intros i k v Hi. by rewrite lookup_nil in Hi. }
  destruct (InProto_LookupWithUpdate kb k0) as [kb1 r] eqn:Hhead.
  assert (kb_dimension kb1 = kb_dimension kb ∧
          (∀ k, embedding_data kb1 !! k = embedding_data kb !! k ∨
                (embedding_data kb !! k = None ∧
                 embedding_data kb1 !! k =
                   Some (F32.zeros (Z.to_nat (kb_dimension kb))))) ∧
          ∃ v, r = inl v ∧
               (embedding_data kb !! k0 = Some v ∨
                (embedding_data kb !! k0 = None ∧
                 v = F32.zeros (Z.to_nat (kb_dimension kb)))))
    as (Hdim1 & Hdata1 & v0 & -> & Hv0).
  { unfold InProto_LookupWithUpdate in Hhead.
    destruct (embedding_data kb !! k0) as [v|] eqn:Hk0; simplify_eq; cbn.
    - repeat split; eauto.
    - repeat split; [|eauto]. intros k. destruct (decide (k = k0)) as [->|].
      + right. by rewrite lookup_insert_eq.
      + left. by rewrite lookup_insert_ne. }
  specialize (IH kb1). cbn zeta in IH.
  destruct (InProto_BatchLookupWithUpdate kb1 keys) as [kb2 rs]. cbn in *.
  destruct IH as (Hdim2 & Hlen & Hdata2 & Hrs). rewrite Hdim1 in *.
  split; [congruence|]. split; [by rewrite Hlen|]. split.
  - intros k. destruct (Hdata2 k) as [->|[Hn ->]]; [apply Hdata1|].
    destruct (Hdata1 k) as [<-|[? ?]]; eauto; congruence.
  - intros [|i] k v Hi Hr; cbn in *; simplify_eq; [done|].
    destruct (Hrs i k v Hi Hr) as [Hv|[Hn ->]].
    + destruct (Hdata1 k) as [<-|[? ?]]; eauto; right; split; congruence.
    + destruct (Hdata1 k) as [<-|[? ?]]; eauto; congruence.
Qed.

(** *** What the store of a session holds for a key *)

Lemma entry_after_start h s o s0 k :
  StartSessionIfNecessary h s = (o, s0) →
  entry (es_map_ s0 !! h) k = entry (es_map_ s !! h) k.
Proof.
  intros [->|(-> & kb & HMake & ->)]%StartSessionIfNecessary_store; [done|].
  cbn. by rewrite (InProto_Make_empty _ _ _ HMake).
Qed.

Lemma entry_after_fetch update kb keys k :
  reads_zero (embedding_data kb !! k) →
  reads_zero (embedding_data (fetch update kb keys).1 !! k).
Proof.
  unfold fetch. destruct update; [|done]. cbn.
  destruct (InProto_BatchLookupWithUpdate_spec kb keys) as (_ & _ & Hdata & _).
  destruct (Hdata k) as [->|[_ ->]]; [done|]. intros _. apply reads_zero_zeros.
Qed.

Lemma fetched_value update kb keys i k v :
  keys !! i = Some k → (fetch update kb keys).2 !! i = Some (inl v) →
  reads_zero (embedding_data kb !! k) → Forall (λ x, x = F32.zero) (value v).
Proof.
  unfold fetch. intros Hi. destruct update; cbn.
  - destruct (InProto_BatchLookupWithUpdate_spec kb keys) as (_ & _ & _ & Hrs).
    intros Hv. destruct (Hrs i k v Hi Hv) as [->|[_ ->]]; [done|].
    intros _. apply Forall_replicate. done.
  - intros Hv. by rewrite (InProto_BatchLookup_value kb keys i k v Hi Hv).
Qed.

Lemma fetched_length update kb keys :
  length (fetch update kb keys).2 = length keys.
Proof.
  unfold fetch. destruct update; cbn.
  - by destruct (InProto_BatchLookupWithUpdate_spec kb keys) as (_ & ? & _).
  - unfold InProto_BatchLookup. by rewrite length_fmap.
Qed.

Lemma UpdateValues_stored m keys vals w k :
  k = "" ∨ k ∉ Tensor.flat keys →
  stored (DynamicEmbeddingManager.UpdateValues m keys vals w).2
    (DynamicEmbeddingManager.session_handle_ m) k =
  stored w (DynamicEmbeddingManager.session_handle_ m) k.
Proof.
  intros Hk. rewrite UpdateValues_world.
  destruct (DynamicEmbeddingManager.CheckInput m keys vals); [done|].
  set (request := {| UpdateRequest.session_handle := _ |}).
  unfold stored. rewrite call_server.
  destruct (Update request (DynamicEmbeddingManager.server w)) as [o s'] eqn:Hrun.
  cbn [snd].
  apply Update_values_only_store in Hrun; [|done]. subst request.
  cbn [UpdateRequest.session_handle UpdateRequest.values] in Hrun.
  destruct Hrun as [->|(s0 & o0 & kb0 & Hs & Hkb0 & Hs')]; [done|].
  rewrite <-(entry_after_start _ _ _ _ k Hs), Hkb0.
  destruct Hs' as [->| ->]; [done|]. cbn.
  apply InProto_BatchUpdate_notin. intros [Hne Hin]%to_proto_map_keys.
  destruct Hk; [done|]. by cbn in Hin.
Qed.

Lemma Lookup_reads_zero m keys update w k :
  reads_zero (stored w (DynamicEmbeddingManager.session_handle_ m) k) →
  reads_zero
    (stored (DynamicEmbeddingManager.Lookup m keys update w).2
       (DynamicEmbeddingManager.session_handle_ m) k).
Proof.
  rewrite Lookup_world. case_decide; [done|].
  set (request := {| LookupRequest.session_handle := _ |}).
  unfold stored. rewrite call_server.
  destruct (Lookup request (DynamicEmbeddingManager.server w)) as [o s'] eqn:Hrun.
  cbn [snd].
  apply Lookup_store in Hrun. subst request.
  cbn [LookupRequest.session_handle LookupRequest.key LookupRequest.update]
    in Hrun.
  destruct Hrun as [->|(s0 & o0 & kb0 & Hs & Hkb0 & Hs')]; [done|].
  rewrite <-(entry_after_start _ _ _ _ k Hs), Hkb0.
  destruct Hs' as [->| ->]; [done|]. cbn. apply entry_after_fetch.
Qed.

Lemma Lookup_zero_rows m keys update w out w' i k :
  DynamicEmbeddingManager.Lookup m keys update w = (Done out, w') →
  Tensor.flat keys !! i = Some k →
  k = "" ∨ reads_zero (stored w (DynamicEmbeddingManager.session_handle_ m) k) →
  Tensor.row (DynamicEmbeddingManager.dimension m) i out =
  replicate (DynamicEmbeddingManager.dimension m) F32.zero.
Proof.
  intros (response & s' & Hrun & ->)%Lookup_Done Hi Hk.
  erewrite row_mjoin; [| |by rewrite list_lookup_fmap, Hi].
  2:{ apply Forall_fmap, Forall_forall. intros ? _. apply output_row_length. }
  unfold DynamicEmbeddingManager.output_row. case_decide; [done|].
  destruct Hk as [?|Hk]; [done|].
  destruct (LookupResponse.embedding_table response !! k) as [v|] eqn:Hv; [|done].
  apply resize_zeros.
  apply Lookup_Done_inv in Hrun as (s0 & kb0 & Hs & Hkb0 & Htable & _).
  cbn [LookupRequest.session_handle LookupRequest.key LookupRequest.update] in *.
  rewrite Htable, fill_embedding_table_spec in Hv.
  apply elem_of_list_to_map_2 in Hv. rewrite elem_of_reverse in Hv.
  apply elem_of_valid in Hv as (j & Hj & Hvj).
  eapply fetched_value; [exact Hj|exact Hvj|].
  unfold stored in Hk. by rewrite <-(entry_after_start _ _ _ _ k Hs), Hkb0 in Hk.
Qed.

Lemma Lookup_succeeds m keys update w :
  DynamicEmbeddingManager.session_handle_ m ≠ "" →
  session_exists (DynamicEmbeddingManager.server w)
    (DynamicEmbeddingManager.session_handle_ m) →
  Tensor.NumElements keys ≠ 0 → Tensor.flat keys ≠ [] →
  ∃ out w', DynamicEmbeddingManager.Lookup m keys update w = (Done out, w').
Proof.
  intros Hh Hs Hn Hkeys. unfold DynamicEmbeddingManager.Lookup.
  rewrite decide_False by done. unfold DynamicEmbeddingManager.call.
  destruct Hs as [[kb Hkb] Hgd].
  rewrite (Lookup_run _ _ kb); [|done|done|by split; eauto|done].
  cbn. rewrite decide_False; [eauto|].
  intros Hlen. apply Hlen, fetched_length.
Qed.

(** *** The claims about the manager over the fixture *)

(** C7.  [UpdateValues] leaves what the store holds for the empty key, and
    for every key outside its batch, as it is.  A [Lookup] that succeeds
    has the shape of the keys with the dimension appended, and its row is
    all zeros at every position of the empty key and of a key that has not
    been written; it does succeed on a non-empty batch once the session
    exists.  A [Lookup] keeps unwritten keys unwritten, and a fresh service
    has no key written. *)
Theorem empty_key_and_zero_default m keys vals update w :
  let h := DynamicEmbeddingManager.session_handle_ m in
  let d := DynamicEmbeddingManager.dimension m in
  (∀ k, k = "" ∨ k ∉ Tensor.flat keys →
     stored (DynamicEmbeddingManager.UpdateValues m keys vals w).2 h k =
     stored w h k) ∧
  (∀ out w', DynamicEmbeddingManager.Lookup m keys update w = (Done out, w') →
     Tensor.shape out = Tensor.shape keys ++ [d] ∧
     ∀ i k, Tensor.flat keys !! i = Some k →
       k = "" ∨ reads_zero (stored w h k) →
       Tensor.row d i out = replicate d F32.zero) ∧
  (h ≠ "" → session_exists (DynamicEmbeddingManager.server w) h →
   Tensor.NumElements keys ≠ 0 → Tensor.flat keys ≠ [] →
     ∃ out w', DynamicEmbeddingManager.Lookup m keys update w = (Done out, w')) ∧
  (∀ k, reads_zero (stored w h k) →
     reads_zero (stored (DynamicEmbeddingManager.Lookup m keys update w).2 h k)) ∧
  (∀ k, stored fresh_world h k = None).
Proof.
  intros h d. split; [|split; [|split; [|split]]].
  - intros k Hk. by apply UpdateValues_stored.
  - intros out w' Hrun. split.
    + by apply Lookup_Done in Hrun as (? & ? & _ & ->).
    + intros i k Hi Hk. by eapply Lookup_zero_rows.
  - by apply Lookup_succeeds.
  - intros k. apply Lookup_reads_zero.
  - done.
Qed.

(** C5.  The test [UpdateGradients_1DInput] ends with the embeddings
    [-0.1, -0.2], [-0.3, -0.4], [-0.5, -0.6], each the binary32 number
    nearest to the decimal; they are the SGD steps of learning rate [0.1f]
    from the zero vector along [1, 2], [3, 4] and [5, 6]. *)
Theorem UpdateGradients_1DInput_sgd :
  UpdateGradients_1DInput =
    Some {| Tensor.shape := [3; 2];
            Tensor.flat :=
              [F32.of_decimal (-1) 1; F32.of_decimal (-2) 1;
               F32.of_decimal (-3) 1; F32.of_decimal (-4) 1;
               F32.of_decimal (-5) 1; F32.of_decimal (-6) 1] |} ∧
  sgd_step default_learning_rate (F32.zeros 2) (vector [1; 2]%Z) =
    {| value := [F32.of_decimal (-1) 1; F32.of_decimal (-2) 1] |} ∧
  sgd_step default_learning_rate (F32.zeros 2) (vector [3; 4]%Z) =
    {| value := [F32.of_decimal (-3) 1; F32.of_decimal (-4) 1] |} ∧
  sgd_step default_learning_rate (F32.zeros 2) (vector [5; 6]%Z) =
    {| value := [F32.of_decimal (-5) 1; F32.of_decimal (-6) 1] |}.
Proof. vm_compute. done. Qed.

(** C2, as stated, fails: a request with a name and a configuration that
    the store factory rejects is answered with an internal error. *)
Lemma StartSession_fails_on_rejected_config :
  let request := {| StartSessionRequest.name := "emb";
                    StartSessionRequest.config := empty_config |} in
  StartSessionRequest.name request ≠ "" ∧
  (StartSession request KnowledgeBankGrpcServiceImpl_new).1 =
    failed INTERNAL "Creating KnowledgeBank failed." ∧
  ¬ StartSession_twice_succeeds request KnowledgeBankGrpcServiceImpl_new.
Proof.
  intros request.
  assert ((StartSession request KnowledgeBankGrpcServiceImpl_new).1 =
          failed INTERNAL "Creating KnowledgeBank failed.") as Hfails
    by (vm_compute; reflexivity).
  split; [discriminate|]. split; [exact Hfails|].
  intros (response & s1 & Hrun & _). rewrite Hrun in Hfails. discriminate Hfails.
Qed.

(** *** The statements at concrete inputs *)

(** C2 at the request of the tests: the second [StartSession] is a no-op. *)
Lemma StartSession_idempotent_witness :
  let s1 := (StartSession emb_request KnowledgeBankGrpcServiceImpl_new).2 in
  StartSession emb_request s1 =
    (Done {| StartSessionResponse.session_handle := emb_handle |}, s1).
Proof.
  intros s1.
  refine (proj2 (StartSession_idempotent emb_request
                   KnowledgeBankGrpcServiceImpl_new
                   {| StartSessionResponse.session_handle := emb_handle |} s1 _)).
  reflexivity.
Defined.

(** C10 at a configuration whose learning rate is zero: the optimizer is
    not constructed, the store stays registered. *)
Lemma optimizer_failure_witness :
  let h := handle_of "emb" (BuildConfig 2 F32.zero) in
  (StartSessionIfNecessary h KnowledgeBankGrpcServiceImpl_new).1 =
    failed INTERNAL "Creating GradientDescentOptimizer failed." ∧
  KnowledgeBankSize (StartSessionIfNecessary h KnowledgeBankGrpcServiceImpl_new).2 = 1.
Proof.
  intros h.
  destruct (optimizer_failure_leaves_store_registered
              (KB := knowledge_bank) (GD := gradient_descent) h
              KnowledgeBankGrpcServiceImpl_new
              {| kb_dimension := 2; embedding_data := ∅ |}
              {| learning_rate := F32.zero; optimizer := Some sgd |})
    as (Hrun & _ & _ & _ & _ & Hsize & _);
    [vm_compute; reflexivity..|].
  rewrite Hrun. split; [reflexivity|exact Hsize].
Defined.

(** C3 at a store that holds [first] and not [missing]: the call succeeds
    and [missing] is not in the table. *)
Lemma Lookup_partial_result_witness :
  let request := {| LookupRequest.session_handle := emb_handle;
                    LookupRequest.key := ["first"; "missing"];
                    LookupRequest.update := false |} in
  ∃ response,
    (Lookup request (service_with emb_handle ["first"])).1 = Done response ∧
    LookupResponse.embedding_table response !! "missing" = None.
Proof.
  intros request.
  destruct (Lookup_partial_result (KB := knowledge_bank) (GD := gradient_descent)
              request (service_with emb_handle ["first"])
              {| kb_dimension := 2;
                 embedding_data := {["first" := F32.zeros 2]} |})
    as (_ & _ & Hdone).
  - vm_compute. discriminate.
  - discriminate.
  - split; [vm_compute; eauto|]. intros _. vm_compute. eauto.
  - vm_compute. reflexivity.
  - destruct Hdone as (response & Hrun & Htable); [vm_compute; reflexivity|].
    exists response. split; [exact Hrun|]. apply Htable.
    intros [|[|i]] v Hi Hv; vm_compute in Hi, Hv; discriminate.
Defined.

(** C1 at a store that holds [second] and not [first]: [Apply] receives one
    vector, the one of [second], and the two gradients of the request, and
    the SGD optimizer rejects the pair. *)
Lemma Update_gradients_misaligned_witness :
  let request := {| UpdateRequest.session_handle := emb_handle;
                    UpdateRequest.values := [];
                    UpdateRequest.gradients :=
                      [("first", vector [1; 2]%Z); ("second", vector [3; 4]%Z)] |} in
  let s := service_with emb_handle ["second"] in
  (Update request s).1 =
    failed INTERNAL
      ("Applying gradient update returned error: " +:+
       "Inconsistent (variables, gradients) sizes.") ∧
  last (calls (Update request s).2) =
    Some (Apply_call emb_handle [F32.zeros 2]
            [vector [1; 2]%Z; vector [3; 4]%Z]).
Proof.
  intros request s.
  destruct (Update_gradients_misaligned
              (KB := knowledge_bank) (GD := gradient_descent) request s s
              {| kb_dimension := 2;
                 embedding_data := {["second" := F32.zeros 2]} |}
              {| gd_dimension := 2; gd_learning_rate := default_learning_rate |})
    as (Hrun & _).
  - vm_compute. discriminate.
  - discriminate.
  - reflexivity.
  - vm_compute. reflexivity.
  - vm_compute. reflexivity.
  - vm_compute. reflexivity.
  - vm_compute. discriminate.
  - rewrite Hrun. split; vm_compute; reflexivity.
Defined.

(** C9 at a session without optimizer: the call fails and the value of
    [first] has been overwritten. *)
Lemma Update_values_not_rolled_back_witness :
  let h := handle_of "emb" store_only_config in
  let request := {| UpdateRequest.session_handle := h;
                    UpdateRequest.values := [("first", vector [1; 2]%Z)];
                    UpdateRequest.gradients := [("first", vector [3; 4]%Z)] |} in
  let s' := (Update request KnowledgeBankGrpcServiceImpl_new).2 in
  code_of (Update request KnowledgeBankGrpcServiceImpl_new).1 = Some INTERNAL ∧
  entry (es_map_ s' !! h) "first" = Some (vector [1; 2]%Z).
Proof.
  intros h request s'.
  destruct (Update_values_not_rolled_back
              (KB := knowledge_bank) (GD := gradient_descent) request
              KnowledgeBankGrpcServiceImpl_new
              (StartSessionIfNecessary h KnowledgeBankGrpcServiceImpl_new).2
              {| kb_dimension := 2; embedding_data := ∅ |})
    as (Hexit & _).
  - vm_compute. discriminate.
  - discriminate.
  - discriminate.
  - reflexivity.
  - vm_compute. reflexivity.
  - destruct (Update request KnowledgeBankGrpcServiceImpl_new) as [o s0] eqn:Hrun.
    assert (∃ e, o = Exit e) as [e ->].
    { apply (f_equal fst) in Hrun. vm_compute in Hrun. subst o. eauto. }
    destruct (Hexit e s0 eq_refl) as (Hcode & Hes & _).
    subst s'. cbn [fst snd]. split; [cbn; by rewrite Hcode|].
    rewrite Hes. vm_compute. reflexivity.
Defined.

(** C4 at the world of the test [ImportAndExport]. *)
Lemma Export_Import_round_trip_witness :
  let w := (DynamicEmbeddingManager.Lookup emb three_keys true emb_world).2 in
  let new_embed := matrix 3 2 [1; 2; 3; 4; 5; 6]%Z in
  ∃ w1 w3,
    DynamicEmbeddingManager.Export emb "/tmp" w =
      (Done "/tmp/emb/embedding_store_meta_data.pbtxt", w1) ∧
    DynamicEmbeddingManager.Import emb "/tmp/emb/embedding_store_meta_data.pbtxt"
      (DynamicEmbeddingManager.UpdateValues emb three_keys new_embed w1).2 =
      (Done (), w3) ∧
    (DynamicEmbeddingManager.Lookup emb three_keys false w3).1 =
      (DynamicEmbeddingManager.Lookup emb three_keys false w).1.
Proof.
  intros w new_embed.
  destruct (Export_Import_round_trip
              (KB := knowledge_bank) (GD := gradient_descent) emb w
              {| kb_dimension := 2;
                 embedding_data :=
                   <["third" := F32.zeros 2]>
                     (<["second" := F32.zeros 2]> {["first" := F32.zeros 2]}) |}
              "/tmp" three_keys new_embed three_keys false)
    as (w1 & w3 & HExport & HImport & _ & _ & HLookup).
  - vm_compute. reflexivity.
  - exists w1, w3. split; [exact HExport|]. split; [exact HImport|exact HLookup].
Defined.

End FixtureFacts.


(** ** Further facts about the service *)

Section ServiceCoverage.
Context `{KB : KnowledgeBankInterface} `{GD : GradientDescentInterface}.
Context `{Codec : !SessionCodec}.

Implicit Types (s : KnowledgeBankGrpcServiceImpl) (h : string).

Ltac unfold_rpc :=
  unfold es_BatchLookup, es_BatchLookupWithUpdate, es_BatchUpdate, gd_Apply,
    es_at, gd_at, es_contains, gd_contains, bind, get, ret, record,
    set_es, set_gd, exit_with, crash.

(** *** Validation and outcomes *)

Lemma exits_internal_es_BatchLookupWithUpdate h keys :
  exits_internal (es_BatchLookupWithUpdate h keys).
Proof. intros s e s'. unfold_rpc. by repeat case_match. Qed.

Lemma exits_internal_Lookup_body request :
  exits_internal
    (bind (StartSessionIfNecessary (LookupRequest.session_handle request))
       (λ _,
          bind (if LookupRequest.update request
                then es_BatchLookupWithUpdate
                       (LookupRequest.session_handle request)
                       (LookupRequest.key request)
                else es_BatchLookup (LookupRequest.session_handle request)
                       (LookupRequest.key request))
            (λ value_or_errors,
               if decide (length value_or_errors ≠
                          length (LookupRequest.key request))
               then exit_with INTERNAL
                      "Inconsistent result returned by BatchLookup()"
               else ret {| LookupResponse.embedding_table :=
                             fill_embedding_table (LookupRequest.key request)
                               value_or_errors |}))).
Proof.
  apply exits_internal_bind; [apply exits_internal_StartSessionIfNecessary|].
  intros ?. apply exits_internal_bind.
  - case_match; [apply exits_internal_es_BatchLookupWithUpdate
                |apply exits_internal_es_BatchLookup].
  - intros ?. case_decide; [apply exits_internal_exit_with|apply exits_internal_ret].
Qed.

Lemma StartSession_no_Crash request s s' : StartSession request s ≠ (Crash, s').
Proof.
  unfold StartSession. case_decide; [done|]. unfold bind.
  destruct (StartSessionIfNecessary _ s) as [[[]|e|] s0] eqn:Hrun; [done..|].
  by apply StartSessionIfNecessary_no_Crash in Hrun.
Qed.

(** X1.  [StartSession] leaves with [INVALID_ARGUMENT] exactly when the
    name is empty; the message is then [Name is empty.] and the service is
    as it was.  With a name, the call ends with [OK] or [INTERNAL]. *)
Theorem StartSession_invalid_argument request s :
  (code_of (StartSession request s).1 = Some INVALID_ARGUMENT ↔
     StartSessionRequest.name request = "") ∧
  (StartSessionRequest.name request = "" →
     StartSession request s = (failed INVALID_ARGUMENT "Name is empty.", s)) ∧
  (StartSessionRequest.name request ≠ "" →
     code_of (StartSession request s).1 = Some OK ∨
     code_of (StartSession request s).1 = Some INTERNAL).
Proof.
  assert (StartSessionRequest.name request ≠ "" →
          code_of (StartSession request s).1 = Some OK ∨
          code_of (StartSession request s).1 = Some INTERNAL) as Hother.
  { intros Hname. pose proof (StartSession_no_Crash request s) as HnoCrash.
    unfold StartSession in *. rewrite decide_False in * by done.
    destruct (bind _ _ s) as [[r|e|] s'] eqn:Hrun; cbn.
    - by left.
    - right. f_equal.
      eapply (exits_internal_bind (StartSessionIfNecessary _)); [| |exact Hrun].
      + apply exits_internal_StartSessionIfNecessary.
      + intros ?. apply exits_internal_ret.
    - by destruct (HnoCrash s'). }
  split; [|split; [|done]].
  - split.
    + intros Hcode. destruct (decide (StartSessionRequest.name request = ""));
        [done|]. destruct (Hother n) as [Hc|Hc]; congruence.
    + intros Hname. unfold StartSession. by rewrite decide_True.
  - intros Hname. unfold StartSession. by rewrite decide_True.
Qed.

(** X2.  [Lookup] leaves with [INVALID_ARGUMENT] exactly when the handle or
    the key list is empty; the empty handle is reported first, and in both
    cases the service is as it was. *)
Theorem Lookup_invalid_argument request s :
  (code_of (Lookup request s).1 = Some INVALID_ARGUMENT ↔
     LookupRequest.session_handle request = "" ∨ LookupRequest.key request = []) ∧
  (LookupRequest.session_handle request = "" →
     Lookup request s =
       (failed INVALID_ARGUMENT "session_handle is empty.", s)) ∧
  (LookupRequest.session_handle request ≠ "" → LookupRequest.key request = [] →
     Lookup request s = (failed INVALID_ARGUMENT "Empty input keys.", s)).
Proof.
  split; [|split].
  - unfold Lookup. split.
    + intros Hcode. repeat case_decide; [by left|by right|]. exfalso.
      destruct (bind _ _ s) as [[r|e|] s'] eqn:Hrun; try done.
      cbn in Hcode. injection Hcode as Hcode.
      by rewrite (exits_internal_Lookup_body request _ _ _ Hrun) in Hcode.
    + intros [Hh|Hk]; repeat case_decide; try done; tauto.
  - intros Hh. unfold Lookup. by rewrite decide_True.
  - intros Hh Hk. unfold Lookup. by rewrite decide_False, decide_True.
Qed.

(** X3.  No handler dereferences a missing map entry: [StartSession],
    [Lookup] and [Update] always end with a status. *)
Theorem handlers_end_with_status :
  (∀ request s, is_Some (status_of (StartSession request s).1)) ∧
  (∀ request s, is_Some (status_of (Lookup request s).1)) ∧
  (∀ request s, is_Some (status_of (Update request s).1)).
Proof.
  split; [|split]; intros request s.
  - pose proof (StartSession_no_Crash request s) as Hno.
    destruct (StartSession request s) as [[r|e|] s']; cbn; eauto.
    by destruct (Hno s').
  - pose proof (Lookup_no_Crash request s) as Hno.
    destruct (Lookup request s) as [[r|e|] s']; cbn; eauto.
    by destruct (Hno s').
  - pose proof (Update_no_Crash request s) as Hno.
    destruct (Update request s) as [[r|e|] s']; cbn; eauto.
    by destruct (Hno s').
Qed.

(** *** Properties kept by every handler *)

Lemma preserves_bind {A B} P (m : rpc A) (f : A → rpc B) :
  preserves P m → (∀ a, preserves P (f a)) → preserves P (bind m f).
Proof.
  intros Hm Hf s o s' HP. unfold bind.
  destruct (m s) as [[a|e|] s0] eqn:Hms; intros Hrun.
  - eapply Hf; [|exact Hrun]. by eapply Hm.
  - simplify_eq. by eapply Hm.
  - simplify_eq. by eapply Hm.
Qed.

Lemma preserves_ret {A} P (a : A) : preserves P (ret a).
Proof. by intros s o s' HP [= <- <-]. Qed.

Lemma preserves_exit_with {A} P c msg : preserves P (@exit_with _ _ A c msg).
Proof. by intros s o s' HP [= <- <-]. Qed.

Lemma preserves_gd_contains P h : preserves P (gd_contains h).
Proof. by intros s o s' HP [= <- <-]. Qed.

Section Handlers.
Variable P : KnowledgeBankGrpcServiceImpl → Prop.
Hypothesis P_start : ∀ h, preserves P (StartSessionIfNecessary h).
Hypothesis P_lookup : ∀ h keys, preserves P (es_BatchLookup h keys).
Hypothesis P_lookup_update : ∀ h keys, preserves P (es_BatchLookupWithUpdate h keys).
Hypothesis P_update : ∀ h keys vals, preserves P (es_BatchUpdate h keys vals).
Hypothesis P_apply : ∀ h embeddings gradients,
  preserves P (gd_Apply h embeddings gradients).

Lemma preserves_StartSession request : preserves P (StartSession request).
Proof.
  unfold StartSession. case_decide; [apply preserves_exit_with|].
  apply preserves_bind; [apply P_start|]. intros ?. apply preserves_ret.
Qed.

Lemma preserves_Lookup request : preserves P (Lookup request).
Proof.
  unfold Lookup. repeat case_decide; try apply preserves_exit_with.
  apply preserves_bind; [apply P_start|]. intros ?. apply preserves_bind.
  - case_match; [apply P_lookup_update|apply P_lookup].
  - intros ?. case_decide; [apply preserves_exit_with|apply preserves_ret].
Qed.

Lemma preserves_Update_values request : preserves P (Update_values request).
Proof.
  unfold Update_values. case_decide; [apply preserves_ret|apply P_update].
Qed.

Lemma preserves_Update_gradients request : preserves P (Update_gradients request).
Proof.
  unfold Update_gradients. case_decide; [apply preserves_ret|].
  apply preserves_bind; [apply preserves_gd_contains|].
  intros []; cbn; [|apply preserves_exit_with].
  apply preserves_bind; [apply P_lookup|].
  intros value_or_errors. case_decide; [apply preserves_exit_with|].
  destruct (collect_valid _ _) as [valid_keys embeddings].
  case_decide; [apply preserves_exit_with|].
  apply preserves_bind; [apply P_apply|].
  intros [updated error_msg]. case_decide; [apply preserves_exit_with|].
  apply P_update.
Qed.

Lemma preserves_Update request : preserves P (Update request).
Proof.
  unfold Update. repeat case_decide; try apply preserves_exit_with.
  apply preserves_bind; [apply P_start|].
  intros ?. apply preserves_bind; [apply preserves_Update_values|].
  intros ?. apply preserves_bind; [apply preserves_Update_gradients|].
  intros ?. apply preserves_ret.
Qed.

Lemma preserves_serve rq s : P s → P (serve rq s).
Proof.
  intros HP. destruct rq as [r|r|r]; cbn.
  - destruct (StartSession r s) as [o s'] eqn:Hrun.
    by eapply preserves_StartSession.
  - destruct (Lookup r s) as [o s'] eqn:Hrun. by eapply preserves_Lookup.
  - destruct (Update r s) as [o s'] eqn:Hrun. by eapply preserves_Update.
Qed.

Lemma preserves_serve_all rqs s : P s → P (serve_all rqs s).
Proof.
  unfold serve_all. revert s. induction rqs as [|rq rqs IH]; intros s HP; cbn;
    [done|]. by apply IH, preserves_serve.
Qed.

End Handlers.

Lemma count_calls_app p cs cs' :
  count_calls p (cs ++ cs') = count_calls p cs + count_calls p cs'.
Proof. induction cs as [|c cs IH]; cbn; [done|]. rewrite IH. lia. Qed.

(** *** The registry stays well formed *)

Lemma registry_ok_new : registry_ok KnowledgeBankGrpcServiceImpl_new.
Proof. intros h [gd Hgd]. cbn in Hgd. by rewrite lookup_empty in Hgd. Qed.

Lemma registry_ok_ext s s' :
  es_map_ s' = es_map_ s → gd_map_ s' = gd_map_ s →
  registry_ok s → registry_ok s'.
Proof. intros Hes Hgd Hok h. rewrite Hes, Hgd. apply Hok. Qed.

Lemma registry_ok_insert_store s s' h kb :
  es_map_ s' = <[h := kb]> (es_map_ s) → gd_map_ s' = gd_map_ s →
  registry_ok s → registry_ok s'.
Proof.
  intros Hes Hgd Hok h' Hh'. rewrite Hes. rewrite Hgd in Hh'.
  destruct (Hok h' Hh') as [? ?]. split; [|done].
  apply lookup_insert_is_Some. destruct (decide (h = h')); eauto.
Qed.

Lemma registry_ok_insert_optimizer s s' h gd :
  es_map_ s' = es_map_ s → gd_map_ s' = <[h := gd]> (gd_map_ s) →
  is_Some (es_map_ s !! h) →
  is_Some (DynamicEmbeddingConfig.gradient_descent_config
             (StartSessionRequest.config (ParseFromString h))) →
  registry_ok s → registry_ok s'.
Proof.
  intros Hes Hgd Hh Hcfg Hok h' Hh'. rewrite Hes. rewrite Hgd in Hh'.
  apply lookup_insert_is_Some in Hh' as [<-|[_ Hh']]; [done|by apply Hok].
Qed.

Lemma registry_ok_StartSessionIfNecessary h :
  preserves registry_ok (StartSessionIfNecessary h).
Proof.
  intros s o s' Hok. unfold StartSessionIfNecessary. unfold_rpc. cbn.
  destruct (es_map_ s !! h) as [kb|] eqn:Hes; cbn.
  - destruct (DynamicEmbeddingConfig.gradient_descent_config _) as [cfg|] eqn:Hcfg;
      [|by intros [= <- <-]].
    destruct (gd_map_ s !! h) as [gd|] eqn:Hgd; cbn; [by intros [= <- <-]|].
    destruct (GradientDescentOptimizer_Create _ cfg) as [gd|]; cbn;
      intros [= <- <-].
    + eapply (registry_ok_insert_optimizer s _ h gd); cbn; eauto.
    + by eapply (registry_ok_ext s).
  - destruct (KnowledgeBankFactory_Make _ _) as [kb|]; cbn;
      [|intros [= <- <-]; by eapply (registry_ok_ext s)].
    assert (registry_ok
              {| es_map_ := <[h:=kb]> (es_map_ s); gd_map_ := gd_map_ s;
                 calls := calls s |}) as Hok1
      by by eapply (registry_ok_insert_store s _ h kb).
    destruct (DynamicEmbeddingConfig.gradient_descent_config _) as [cfg|] eqn:Hcfg;
      [|intros [= <- <-]; by eapply registry_ok_ext; [..|exact Hok1]].
    destruct (gd_map_ s !! h) as [gd|] eqn:Hgd; cbn;
      [intros [= <- <-]; by eapply registry_ok_ext; [..|exact Hok1]|].
    destruct (GradientDescentOptimizer_Create _ cfg) as [gd|]; cbn;
      intros [= <- <-].
    + eapply (registry_ok_insert_optimizer _ _ h gd); [..|exact Hok1]; cbn;
        eauto. by rewrite lookup_insert_eq.
    + by eapply registry_ok_ext; [..|exact Hok1].
Qed.

Lemma registry_ok_es_BatchLookup h keys :
  preserves registry_ok (es_BatchLookup h keys).
Proof.
  intros s o s' Hok. unfold_rpc. cbn.
  repeat case_match; intros; by simplify_eq.
Qed.

Lemma registry_ok_es_BatchLookupWithUpdate h keys :
  preserves registry_ok (es_BatchLookupWithUpdate h keys).
Proof.
  intros s o s' Hok. unfold_rpc. cbn.
  repeat case_match; intros; simplify_eq; try done.
  eapply registry_ok_insert_store; [| |eassumption]; reflexivity.
Qed.

Lemma registry_ok_es_BatchUpdate h keys vals :
  preserves registry_ok (es_BatchUpdate h keys vals).
Proof.
  intros s o s' Hok. unfold_rpc. cbn.
  repeat case_match; intros; simplify_eq; try done.
  eapply registry_ok_insert_store; [| |eassumption]; reflexivity.
Qed.

Lemma registry_ok_gd_Apply h embeddings gradients :
  preserves registry_ok (gd_Apply h embeddings gradients).
Proof.
  intros s o s' Hok. unfold_rpc. cbn.
  repeat case_match; intros; simplify_eq; try done.
  eapply registry_ok_insert_optimizer; [| | | |eassumption];
    [reflexivity|reflexivity|..]; cbn;
    match goal with
    | Hok : registry_ok ?s, Hgd : gd_map_ ?s !! _ = Some _ |- _ =>
        apply Hok; rewrite Hgd; by eexists
    end.
Qed.

Lemma registry_ok_after rqs :
  registry_ok (serve_all rqs KnowledgeBankGrpcServiceImpl_new).
Proof.
  apply preserves_serve_all; [..|apply registry_ok_new].
  - apply registry_ok_StartSessionIfNecessary.
  - apply registry_ok_es_BatchLookup.
  - apply registry_ok_es_BatchLookupWithUpdate.
  - apply registry_ok_es_BatchUpdate.
  - apply registry_ok_gd_Apply.
Qed.

(** X4.  After any sequence of requests handled by a fresh service, an
    optimizer is registered only under a handle that also has a store and
    whose request carries a gradient descent configuration. *)
Theorem registry_ok_serve_all rqs h :
  let s := serve_all rqs KnowledgeBankGrpcServiceImpl_new in
  is_Some (gd_map_ s !! h) →
  is_Some (es_map_ s !! h) ∧
  is_Some (DynamicEmbeddingConfig.gradient_descent_config
             (StartSessionRequest.config (ParseFromString h))).
Proof. apply registry_ok_after. Qed.

(** *** The registry accounts for its constructions *)

Ltac solve_accounted :=
  unfold registry_accounted in *; cbn;
  rewrite ?count_calls_app; cbn;
  repeat match goal with
         | H : KnowledgeBankFactory_Make _ _ = _ |- _ => rewrite H
         | H : GradientDescentOptimizer_Create _ _ = _ |- _ => rewrite H
         end;
  rewrite ?map_size_insert_None by (done || by rewrite lookup_insert_ne);
  lia.

Lemma registry_accounted_StartSessionIfNecessary h :
  preserves registry_accounted (StartSessionIfNecessary h).
Proof.
  intros s o s' Hok. unfold StartSessionIfNecessary. unfold_rpc. cbn.
  destruct (es_map_ s !! h) as [kb|] eqn:Hes; cbn.
  - destruct (DynamicEmbeddingConfig.gradient_descent_config _) as [cfg|] eqn:Hcfg;
      [|by intros [= <- <-]].
    destruct (gd_map_ s !! h) as [gd|] eqn:Hgd; cbn; [by intros [= <- <-]|].
    destruct (GradientDescentOptimizer_Create _ cfg) as [gd|] eqn:HCreate; cbn;
      intros [= <- <-]; solve_accounted.
  - destruct (KnowledgeBankFactory_Make _ _) as [kb|] eqn:HMake; cbn;
      [|intros [= <- <-]; solve_accounted].
    destruct (DynamicEmbeddingConfig.gradient_descent_config _) as [cfg|] eqn:Hcfg;
      [|intros [= <- <-]; solve_accounted].
    destruct (gd_map_ s !! h) as [gd|] eqn:Hgd; cbn;
      [intros [= <- <-]; solve_accounted|].
    destruct (GradientDescentOptimizer_Create _ cfg) as [gd|] eqn:HCreate; cbn;
      intros [= <- <-]; solve_accounted.
Qed.

Ltac solve_accounted_primitive :=
  intros s o s' Hok; unfold_rpc; cbn;
  repeat case_match; intros; simplify_eq; try done;
  unfold registry_accounted in *; cbn;
  rewrite ?count_calls_app; cbn;
  repeat match goal with
         | H : ?m !! ?h = Some _ |- context [size (<[?h:=_]> ?m)] =>
             rewrite (map_size_insert_Some h _ m) by (rewrite H; eauto)
         end;
  lia.

Lemma registry_accounted_es_BatchLookup h keys :
  preserves registry_accounted (es_BatchLookup h keys).
Proof. solve_accounted_primitive. Qed.

Lemma registry_accounted_es_BatchLookupWithUpdate h keys :
  preserves registry_accounted (es_BatchLookupWithUpdate h keys).
Proof. solve_accounted_primitive. Qed.

Lemma registry_accounted_es_BatchUpdate h keys vals :
  preserves registry_accounted (es_BatchUpdate h keys vals).
Proof. solve_accounted_primitive. Qed.

Lemma registry_accounted_gd_Apply h embeddings gradients :
  preserves registry_accounted (gd_Apply h embeddings gradients).
Proof. solve_accounted_primitive. Qed.

(** X5.  After any sequence of requests handled by a fresh service, the
    number of sessions reported by [KnowledgeBankSize] is the number of
    factory calls that returned a store, and the number of optimizers is
    the number of constructor calls that returned one: nothing is
    constructed twice or dropped. *)
Theorem registry_accounted_serve_all rqs :
  let s := serve_all rqs KnowledgeBankGrpcServiceImpl_new in
  KnowledgeBankSize s = count_calls made_store (calls s) ∧
  size (gd_map_ s) = count_calls made_optimizer (calls s).
Proof.
  apply (preserves_serve_all registry_accounted); [..|done].
  - apply registry_accounted_StartSessionIfNecessary.
  - apply registry_accounted_es_BatchLookup.
  - apply registry_accounted_es_BatchLookupWithUpdate.
  - apply registry_accounted_es_BatchUpdate.
  - apply registry_accounted_gd_Apply.
Qed.

(** *** Sessions stay registered *)

Ltac solve_keeps_registered :=
  intros s o s' HP; unfold_rpc; cbn;
  repeat case_match; intros; simplify_eq; cbn; try done;
  apply lookup_insert_is_Some'; by right.

Lemma store_registered_StartSessionIfNecessary h0 h :
  preserves (λ s, is_Some (es_map_ s !! h0)) (StartSessionIfNecessary h).
Proof.
  intros s o s' [kb Hkb] Hrun.
  destruct (StartSessionIfNecessary_keeps _ _ _ _ h0 Hrun) as [Hes _]. eauto.
Qed.

Lemma optimizer_registered_StartSessionIfNecessary h0 h :
  preserves (λ s, is_Some (gd_map_ s !! h0)) (StartSessionIfNecessary h).
Proof.
  intros s o s' [gd Hgd] Hrun.
  destruct (StartSessionIfNecessary_keeps _ _ _ _ h0 Hrun) as [_ Hg]. eauto.
Qed.

Lemma store_registered_es_BatchLookup h0 h keys :
  preserves (λ s, is_Some (es_map_ s !! h0)) (es_BatchLookup h keys).
Proof. solve_keeps_registered. Qed.

Lemma store_registered_es_BatchLookupWithUpdate h0 h keys :
  preserves (λ s, is_Some (es_map_ s !! h0)) (es_BatchLookupWithUpdate h keys).
Proof. solve_keeps_registered. Qed.

Lemma store_registered_es_BatchUpdate h0 h keys vals :
  preserves (λ s, is_Some (es_map_ s !! h0)) (es_BatchUpdate h keys vals).
Proof. solve_keeps_registered. Qed.

Lemma store_registered_gd_Apply h0 h embeddings gradients :
  preserves (λ s, is_Some (es_map_ s !! h0)) (gd_Apply h embeddings gradients).
Proof. solve_keeps_registered. Qed.

Lemma optimizer_registered_es_BatchLookup h0 h keys :
  preserves (λ s, is_Some (gd_map_ s !! h0)) (es_BatchLookup h keys).
Proof. solve_keeps_registered. Qed.

Lemma optimizer_registered_es_BatchLookupWithUpdate h0 h keys :
  preserves (λ s, is_Some (gd_map_ s !! h0)) (es_BatchLookupWithUpdate h keys).
Proof. solve_keeps_registered. Qed.

Lemma optimizer_registered_es_BatchUpdate h0 h keys vals :
  preserves (λ s, is_Some (gd_map_ s !! h0)) (es_BatchUpdate h keys vals).
Proof. solve_keeps_registered. Qed.

Lemma optimizer_registered_gd_Apply h0 h embeddings gradients :
  preserves (λ s, is_Some (gd_map_ s !! h0)) (gd_Apply h embeddings gradients).
Proof. solve_keeps_registered. Qed.

Lemma store_registered_serve h0 rq s :
  is_Some (es_map_ s !! h0) → is_Some (es_map_ (serve rq s) !! h0).
Proof.
  apply (preserves_serve (λ s, is_Some (es_map_ s !! h0))).
  - intros. apply store_registered_StartSessionIfNecessary.
  - intros. apply store_registered_es_BatchLookup.
  - intros. apply store_registered_es_BatchLookupWithUpdate.
  - intros. apply store_registered_es_BatchUpdate.
  - intros. apply store_registered_gd_Apply.
Qed.

Lemma optimizer_registered_serve h0 rq s :
  is_Some (gd_map_ s !! h0) → is_Some (gd_map_ (serve rq s) !! h0).
Proof.
  apply (preserves_serve (λ s, is_Some (gd_map_ s !! h0))).
  - intros. apply optimizer_registered_StartSessionIfNecessary.
  - intros. apply optimizer_registered_es_BatchLookup.
  - intros. apply optimizer_registered_es_BatchLookupWithUpdate.
  - intros. apply optimizer_registered_es_BatchUpdate.
  - intros. apply optimizer_registered_gd_Apply.
Qed.

Lemma session_exists_serve_all h0 rqs s :
  session_exists s h0 → session_exists (serve_all rqs s) h0.
Proof.
  unfold serve_all. revert s. induction rqs as [|rq rqs IH]; intros s Hs; cbn;
    [done|]. apply IH. destruct Hs as [Hes Hgd]. split.
  - by apply store_registered_serve.
  - intros Hcfg. by apply optimizer_registered_serve, Hgd.
Qed.

(** X6.  Once [StartSession] has succeeded, the session stays: whatever
    requests are handled afterwards, its store and (if configured) its
    optimizer are registered, and the creation step for its handle is a
    no-op that constructs nothing. *)
Theorem started_session_persists request s response s1 rqs :
  StartSession request s = (Done response, s1) →
  let h := StartSessionResponse.session_handle response in
  let s2 := serve_all rqs s1 in
  session_exists s2 h ∧ StartSessionIfNecessary h s2 = (Done (), s2).
Proof.
  unfold StartSession. case_decide; [done|]. unfold bind.
  destruct (StartSessionIfNecessary _ s) as [[[]|e|] s0] eqn:Hrun; [|done..].
  unfold ret. intros [= <- <-]. cbn.
  apply StartSessionIfNecessary_Done in Hrun.
  assert (session_exists (serve_all rqs s0) (SerializeAsString request)) as Hs
    by by apply session_exists_serve_all.
  split; [done|]. by apply StartSessionIfNecessary_exists.
Qed.

(** *** A request concerns one session *)

Lemma only_touches_Lookup request :
  only_touches (LookupRequest.session_handle request) (Lookup request).
Proof.
  unfold Lookup. repeat case_decide; try apply only_touches_exit_with.
  apply only_touches_bind; [apply only_touches_StartSessionIfNecessary|].
  intros ?. apply only_touches_bind.
  - case_match; [apply only_touches_es_BatchLookupWithUpdate
                |apply only_touches_es_BatchLookup].
  - intros ?. case_decide; [apply only_touches_exit_with|apply only_touches_ret].
Qed.

Lemma only_touches_StartSession request :
  only_touches (SerializeAsString request) (StartSession request).
Proof.
  unfold StartSession. case_decide; [apply only_touches_exit_with|].
  apply only_touches_bind; [apply only_touches_StartSessionIfNecessary|].
  intros ?. apply only_touches_ret.
Qed.

Lemma serve_other_session rq s h' :
  h' ≠ request_handle rq →
  es_map_ (serve rq s) !! h' = es_map_ s !! h' ∧
  gd_map_ (serve rq s) !! h' = gd_map_ s !! h'.
Proof.
  intros Hne. destruct rq as [r|r|r]; cbn in *.
  - destruct (StartSession r s) as [o s'] eqn:Hrun.
    by eapply only_touches_StartSession.
  - destruct (Lookup r s) as [o s'] eqn:Hrun. by eapply only_touches_Lookup.
  - destruct (Update r s) as [o s'] eqn:Hrun. by eapply only_touches_Update.
Qed.

(** X7.  A request leaves every session but the one of its handle as it
    is: the stores and optimizers registered under other handles are the
    same after the call, and no other handle gets registered. *)
Theorem request_touches_one_session rq s h' :
  h' ≠ request_handle rq →
  es_map_ (serve rq s) !! h' = es_map_ s !! h' ∧
  gd_map_ (serve rq s) !! h' = gd_map_ s !! h'.
Proof. apply serve_other_session. Qed.

(** X8.  No request removes a session: every handle that has a store or
    an optimizer before a call has one after it, and [KnowledgeBankSize]
    grows by at most one per request. *)
Theorem registry_grows rq s :
  dom (es_map_ s) ⊆ dom (es_map_ (serve rq s)) ∧
  dom (gd_map_ s) ⊆ dom (gd_map_ (serve rq s)) ∧
  dom (es_map_ (serve rq s)) ⊆ {[request_handle rq]} ∪ dom (es_map_ s) ∧
  KnowledgeBankSize s ≤ KnowledgeBankSize (serve rq s) ≤ S (KnowledgeBankSize s).
Proof.
  assert (dom (es_map_ s) ⊆ dom (es_map_ (serve rq s))) as Hes.
  { intros h Hh%elem_of_dom. by apply elem_of_dom, store_registered_serve. }
  assert (dom (es_map_ (serve rq s)) ⊆ {[request_handle rq]} ∪ dom (es_map_ s))
    as Hes'.
  { intros h Hh. destruct (decide (h = request_handle rq)) as [->|Hne];
      [set_solver|]. apply elem_of_union_r.
    apply elem_of_dom. apply elem_of_dom in Hh.
    by destruct (serve_other_session rq s h Hne) as [<- _]. }
  split; [done|]. split; [|split; [done|]].
  - intros h Hh%elem_of_dom. by apply elem_of_dom, optimizer_registered_serve.
  - unfold KnowledgeBankSize. rewrite <-!size_dom. split.
    + by apply subseteq_size.
    + etrans; [by apply subseteq_size|].
      rewrite size_union_alt, size_singleton.
      assert (size (dom (es_map_ s) ∖ {[request_handle rq]}) ≤
              size (dom (es_map_ s))) as Hle
        by (apply subseteq_size; set_solver).
      lia.
Qed.

(** *** Reads and session starts change no registered object *)

Lemma StartSessionIfNecessary_subseteq h s o s' :
  StartSessionIfNecessary h s = (o, s') →
  es_map_ s ⊆ es_map_ s' ∧ gd_map_ s ⊆ gd_map_ s'.
Proof.
  intros Hrun. split; apply map_subseteq_spec; intros h0 x Hx;
    by destruct (StartSessionIfNecessary_keeps _ _ _ _ h0 Hrun) as [He Hg];
    eauto.
Qed.

Lemma StartSession_subseteq request s o s' :
  StartSession request s = (o, s') →
  es_map_ s ⊆ es_map_ s' ∧ gd_map_ s ⊆ gd_map_ s'.
Proof.
  unfold StartSession. case_decide; [by intros [= <- <-]|]. unfold bind.
  destruct (StartSessionIfNecessary _ s) as [[[]|e|] s0] eqn:Hrun;
    intros [= <- <-]; by eapply StartSessionIfNecessary_subseteq.
Qed.

Lemma Lookup_no_update_subseteq request s o s' :
  LookupRequest.update request = false →
  Lookup request s = (o, s') →
  es_map_ s ⊆ es_map_ s' ∧ gd_map_ s ⊆ gd_map_ s'.
Proof.
  intros Hupdate. unfold Lookup. rewrite Hupdate.
  repeat case_decide; try by intros [= <- <-]. unfold bind at 1.
  destruct (StartSessionIfNecessary _ s) as [[[]|e|] s0] eqn:Hrun;
    apply StartSessionIfNecessary_subseteq in Hrun;
    [|by intros [= <- <-]..].
  unfold_rpc. cbn. destruct (es_map_ s0 !! _); cbn; [case_decide|];
    by intros [= <- <-].
Qed.

(** X9.  [StartSession], and [Lookup] without update, never replace or
    change a registered store or optimizer: every entry of [es_map_] and
    [gd_map_] is the same after the call; all they may do is register the
    session of their handle. *)
Theorem reads_keep_registered_objects :
  (∀ request s,
     es_map_ s ⊆ es_map_ (StartSession request s).2 ∧
     gd_map_ s ⊆ gd_map_ (StartSession request s).2) ∧
  (∀ request s,
     LookupRequest.update request = false →
     es_map_ s ⊆ es_map_ (Lookup request s).2 ∧
     gd_map_ s ⊆ gd_map_ (Lookup request s).2).
Proof.
  split.
  - intros request s. destruct (StartSession request s) as [o s'] eqn:Hrun.
    by eapply StartSession_subseteq.
  - intros request s Hupdate. destruct (Lookup request s) as [o s'] eqn:Hrun.
    by eapply Lookup_no_update_subseteq.
Qed.

(** *** The table a Lookup returns *)

Lemma fill_embedding_table_last keys value_or_errors i k v :
  keys !! i = Some k → value_or_errors !! i = Some (inl v) →
  (∀ j v', i < j → keys !! j = Some k → value_or_errors !! j ≠ Some (inl v')) →
  fill_embedding_table keys value_or_errors !! k = Some v.
Proof.
  rewrite fill_embedding_table_spec. revert i.
  induction keys as [|k0 keys IH] using rev_ind; intros i Hi Hv Hlast;
    [by rewrite lookup_nil in Hi|].
  rewrite valid_snoc, reverse_app.
  destruct (decide (i = length keys)) as [->|Hne].
  - rewrite list_lookup_middle in Hi by done. injection Hi as ->.
    rewrite Hv. cbn. by rewrite lookup_insert_eq.
  - assert (i < length keys) as Hlt.
    { apply lookup_lt_Some in Hi. rewrite length_app in Hi. cbn in Hi. lia. }
    rewrite lookup_app_l in Hi by done.
    assert ((list_to_map (reverse (valid keys value_or_errors))
               : gmap string EmbeddingVectorProto) !! k = Some v) as Hrec.
    { apply (IH i); [done..|]. intros j v' Hj Hkj.
      apply Hlast; [done|]. rewrite lookup_app_l; [done|].
      by eapply lookup_lt_Some. }
    destruct (value_or_errors !! length keys) as [[v0|e]|] eqn:Hv0; cbn;
      [|done..].
    destruct (decide (k0 = k)) as [->|Hk]; [|by rewrite lookup_insert_ne].
    exfalso. apply (Hlast (length keys) v0); [done| |done].
    by rewrite list_lookup_middle.
Qed.

Lemma fill_embedding_table_elem keys value_or_errors k :
  is_Some (fill_embedding_table keys value_or_errors !! k) → k ∈ keys.
Proof.
  rewrite fill_embedding_table_spec. intros [v Hv%elem_of_list_to_map_2].
  rewrite elem_of_reverse in Hv. apply elem_of_valid in Hv as (i & Hi & _).
  by eapply list_elem_of_lookup_2.
Qed.

Lemma fill_embedding_table_all keys value_or_errors k :
  (∀ i, i < length keys → ∃ v, value_or_errors !! i = Some (inl v)) →
  k ∈ keys → is_Some (fill_embedding_table keys value_or_errors !! k).
Proof.
  intros Hall [i Hi]%list_elem_of_lookup_1.
  destruct (Hall i) as [v Hv]; [by eapply lookup_lt_Some|].
  rewrite fill_embedding_table_spec.
  destruct (list_to_map _ !! k) as [v'|] eqn:Hk; [by eexists|].
  apply not_elem_of_list_to_map in Hk. exfalso. apply Hk.
  apply list_elem_of_fmap. exists (k, v). split; [done|].
  rewrite elem_of_reverse. apply elem_of_valid. eauto.
Qed.

Lemma Lookup_Done_fetch request s response s' :
  Lookup request s = (Done response, s') →
  ∃ s0 kb0,
    StartSessionIfNecessary (LookupRequest.session_handle request) s = (Done (), s0) ∧
    es_map_ s0 !! LookupRequest.session_handle request = Some kb0 ∧
    length (fetch (LookupRequest.update request) kb0
              (LookupRequest.key request)).2 =
      length (LookupRequest.key request) ∧
    LookupResponse.embedding_table response =
      fill_embedding_table (LookupRequest.key request)
        (fetch (LookupRequest.update request) kb0 (LookupRequest.key request)).2.
Proof.
  unfold Lookup. repeat case_decide; try done. unfold bind at 1.
  destruct (StartSessionIfNecessary _ s) as [[[]|e|] s0] eqn:Hrun; try done.
  unfold fetch. destruct (LookupRequest.update request); unfold_rpc; cbn;
    destruct (es_map_ s0 !! _) as [kb0|] eqn:Hkb; try done; cbn.
  - destruct (BatchLookupWithUpdate kb0 _) as [kb1 value_or_errors] eqn:Hfetch.
    cbn. case_decide as Hlen; [done|]. intros [= <- <-]. cbn.
    exists s0, kb0. rewrite Hfetch. cbn. repeat split; [done|].
    by destruct (decide (length value_or_errors =
                         length (LookupRequest.key request))); [|tauto].
  - case_decide as Hlen; [done|]. intros [= <- <-]. cbn.
    exists s0, kb0. repeat split; [done|].
    by destruct (decide (length (BatchLookup kb0 (LookupRequest.key request)) =
                         length (LookupRequest.key request))); [|tauto].
Qed.

(** X10.  The table of a [Lookup] that succeeds: the store returned one
    result per key; every key of the table is a requested key; a key that
    occurs several times gets the vector of its last successful fetch; and
    when every fetch succeeds every requested key is in the table. *)
Theorem Lookup_table_contents request s response s' :
  Lookup request s = (Done response, s') →
  let h := LookupRequest.session_handle request in
  let keys := LookupRequest.key request in
  let table := LookupResponse.embedding_table response in
  ∃ s0 kb0,
    StartSessionIfNecessary h s = (Done (), s0) ∧
    es_map_ s0 !! h = Some kb0 ∧
    let value_or_errors := (fetch (LookupRequest.update request) kb0 keys).2 in
    length value_or_errors = length keys ∧
    (∀ k, is_Some (table !! k) → k ∈ keys) ∧
    (∀ i k v,
       keys !! i = Some k → value_or_errors !! i = Some (inl v) →
       (∀ j v', i < j → keys !! j = Some k →
                value_or_errors !! j ≠ Some (inl v')) →
       table !! k = Some v) ∧
    ((∀ i, i < length keys → ∃ v, value_or_errors !! i = Some (inl v)) →
     ∀ k, k ∈ keys → is_Some (table !! k)).
Proof.
  intros (s0 & kb0 & Hs & Hkb & Hlen & Htable)%Lookup_Done_fetch h keys table.
  exists s0, kb0. split; [done|]. split; [done|]. cbn zeta.
  split; [done|]. unfold table. rewrite Htable. split; [|split].
  - intros k. apply fill_embedding_table_elem.
  - intros i k v. apply fill_embedding_table_last.
  - intros Hall k. by apply fill_embedding_table_all.
Qed.

(** *** A store that cannot be constructed *)

(** X11.  When the handle has no store and the factory returns none, the
    creation step, and so [StartSession], [Lookup] and [Update], returns
    the internal error of the store; nothing is registered, the optimizer
    constructor is not called, and a later call asks the factory again. *)
Theorem store_failure_registers_nothing h s :
  let config := StartSessionRequest.config (ParseFromString h) in
  let dim := DynamicEmbeddingConfig.embedding_dimension config in
  let kb_config := DynamicEmbeddingConfig.knowledge_bank_config config in
  let msg := "Creating KnowledgeBank failed." in
  let s1 := with_calls s [Make_call kb_config dim] in
  es_map_ s !! h = None →
  KnowledgeBankFactory_Make kb_config dim = None →
  StartSessionIfNecessary h s = (failed INTERNAL msg, s1) ∧
  (∀ request, SerializeAsString request = h →
     StartSessionRequest.name request ≠ "" →
     StartSession request s = (failed INTERNAL msg, s1)) ∧
  (∀ request, LookupRequest.session_handle request = h → h ≠ "" →
     LookupRequest.key request ≠ [] →
     Lookup request s = (failed INTERNAL msg, s1)) ∧
  (∀ request, UpdateRequest.session_handle request = h → h ≠ "" →
     ¬ Update_rejects request →
     Update request s = (failed INTERNAL msg, s1)) ∧
  es_map_ s1 = es_map_ s ∧ gd_map_ s1 = gd_map_ s ∧
  StartSessionIfNecessary h s1 =
    (failed INTERNAL msg, with_calls s1 [Make_call kb_config dim]).
Proof.
  intros config dim kb_config msg s1 Hes HMake.
  assert (∀ s, es_map_ s !! h = None →
            StartSessionIfNecessary h s =
              (failed INTERNAL msg, with_calls s [Make_call kb_config dim]))
    as Hrun.
  { intros s0 Hes0. unfold StartSessionIfNecessary. unfold_rpc. cbn.
    fold config. fold dim. fold kb_config.
    rewrite Hes0. cbn. by rewrite HMake. }
  split; [by apply Hrun|]. split; [|split; [|split; [|split; [|split]]]].
  - intros request Hh Hname. unfold StartSession.
    rewrite decide_False by done. cbn. unfold bind. by rewrite Hh, Hrun.
  - intros request Hh Hne Hkeys. unfold Lookup. rewrite Hh.
    rewrite !decide_False by done. unfold bind. by rewrite Hrun.
  - intros request Hh Hne Hin. unfold Update. rewrite Hh.
    rewrite decide_False by done.
    rewrite decide_False by (intros ?; apply Hin; by right).
    unfold bind. by rewrite Hrun.
  - done.
  - done.
  - by apply Hrun.
Qed.

(** *** Gradients need a configured optimizer *)

Lemma message_head_differs msg :
  "Applying gradient update returned error: " +:+ msg ≠ no_optimizer_message.
Proof.
  intros Heq. apply (f_equal (String.get 0)) in Heq.
  by cbv in Heq.
Qed.

Lemma Update_gradients_message request s1 gd e s' :
  gd_map_ s1 !! UpdateRequest.session_handle request = Some gd →
  Update_gradients request s1 = (Exit e, s') →
  error_message e ≠ no_optimizer_message.
Proof.
  intros Hgd. unfold Update_gradients. case_decide; [done|].
  unfold_rpc. cbn. rewrite Hgd. cbn.
  repeat case_match; intros; simplify_eq; cbn;
    try apply message_head_differs; by cbv.
Qed.

(** X12.  After any sequence of requests handled by a fresh service, an
    accepted [Update] with gradients that passes the creation step fails
    with the message that the optimizer is not created exactly when the
    request behind its handle carries no gradient descent configuration. *)
Theorem missing_optimizer_iff_no_config rqs request s0 :
  let s := serve_all rqs KnowledgeBankGrpcServiceImpl_new in
  let h := UpdateRequest.session_handle request in
  h ≠ "" → UpdateRequest.gradients request ≠ [] →
  StartSessionIfNecessary h s = (Done (), s0) →
  ((Update request s).1 = failed INTERNAL no_optimizer_message ↔
   DynamicEmbeddingConfig.gradient_descent_config
     (StartSessionRequest.config (ParseFromString h)) = None).
Proof.
  intros s h Hh Hgrads Hs.
  assert (registry_ok s0) as Hok.
  { eapply registry_ok_StartSessionIfNecessary; [|exact Hs].
    apply registry_ok_after. }
  destruct (StartSessionIfNecessary_Done _ _ _ Hs) as [[kb Hkb] Hgd].
  rewrite (Update_run request s s0 kb); [|done| |done|done];
    [|intros [?|[_ ?]]; done].
  unfold bind.
  destruct (gd_map_ s0 !! h) as [gd|] eqn:Hgd0.
  - assert (is_Some (DynamicEmbeddingConfig.gradient_descent_config
                       (StartSessionRequest.config (ParseFromString h))))
      as [cfg Hcfg] by (apply Hok; by eexists).
    rewrite Hcfg. split; [|done]. intros Hrun. exfalso.
    destruct (Update_gradients request _) as [[[]|e|] s2] eqn:Hgrad; [done| |done].
    cbn in Hrun. injection Hrun as ->.
    eapply (Update_gradients_message request); [|exact Hgrad|done].
    rewrite after_values_optimizer. exact Hgd0.
  - split; [intros _|intros _].
    + destruct (DynamicEmbeddingConfig.gradient_descent_config _) as [cfg|] eqn:Hcfg;
        [|done].
      destruct Hgd as [gd Hgd]; [by eexists|]. congruence.
    + unfold Update_gradients. rewrite decide_False by done.
      unfold_rpc. cbn. rewrite after_values_optimizer. fold h.
      by rewrite Hgd0.
Qed.

(** *** Values written are the values read *)

Lemma valid_all_values (l : list (string * EmbeddingVectorProto)) :
  valid l.*1 (inl <$> l.*2) = l.
Proof.
  unfold valid. induction l as [|[k v] l IH]; cbn; [done|]. by rewrite IH.
Qed.

(** X13.  An [Update] that carries values only, on an existing session,
    succeeds; if the store returns for the written keys the vectors just
    written, a [Lookup] without update of those keys then returns a table
    that maps each key to the vector the request gave for it. *)
Theorem Update_then_Lookup request s kb :
  let h := UpdateRequest.session_handle request in
  let keys := (UpdateRequest.values request).*1 in
  let vals := (UpdateRequest.values request).*2 in
  let s1 := after_values request s kb in
  h ≠ "" → UpdateRequest.values request ≠ [] →
  UpdateRequest.gradients request = [] →
  session_exists s h → es_map_ s !! h = Some kb →
  NoDup keys →
  BatchLookup (BatchUpdate kb keys vals) keys = inl <$> vals →
  Update request s = (Done UpdateResponse.Build_t, s1) ∧
  (Lookup {| LookupRequest.session_handle := h; LookupRequest.key := keys;
             LookupRequest.update := false |} s1).1 =
    Done {| LookupResponse.embedding_table :=
              list_to_map (UpdateRequest.values request) |}.
Proof.
  intros h keys vals s1 Hh Hvalues Hgrads Hs Hkb Hnodup Hstore.
  split.
  - rewrite (Update_run request s s kb); [|done| |by apply StartSessionIfNecessary_exists|done];
      [|intros [?|[? _]]; done].
    unfold bind, Update_gradients. by rewrite decide_True.
  - assert (es_map_ s1 !! h = Some (BatchUpdate kb keys vals)) as Hkb1.
    { pose proof (after_values_store request s kb Hkb) as Hafter.
      unfold store_after_values in Hafter.
      by rewrite decide_False in Hafter. }
    assert (session_exists s1 h) as Hs1.
    { split; [by eexists|]. unfold s1. rewrite after_values_optimizer.
      apply Hs. }
    assert (keys ≠ []) as Hkeys.
    { unfold keys. by destruct (UpdateRequest.values request). }
    rewrite (Lookup_run _ s1 (BatchUpdate kb keys vals)); [|done..]. cbn.
    rewrite Hstore. rewrite decide_False.
    + do 2 f_equal.
      etrans; [exact (fill_embedding_table_spec keys (inl <$> vals))|].
      unfold keys, vals. rewrite valid_all_values.
      symmetry. apply list_to_map_proper; [done|].
      symmetry. apply reverse_Permutation.
    + intros Hlen. apply Hlen. unfold keys, vals. by rewrite !length_fmap.
Qed.

End ServiceCoverage.


(** ** The further facts at concrete inputs *)

Section CoverageFixture.
Import Fixture Wire Test.

(** X4 after the [StartSession] of the tests: the optimizer of [emb] has
    its store beside it and its handle carries the SGD configuration. *)
Lemma registry_ok_serve_all_witness :
  let s := serve_all [StartSession_request emb_request]
             KnowledgeBankGrpcServiceImpl_new in
  is_Some (gd_map_ s !! emb_handle) ∧
  is_Some (es_map_ s !! emb_handle) ∧
  is_Some (DynamicEmbeddingConfig.gradient_descent_config
             (StartSessionRequest.config (ParseFromString emb_handle))).
Proof.
  intros s.
  assert (is_Some (gd_map_ s !! emb_handle)) as Hgd by (vm_compute; eauto).
  split; [exact Hgd|].
  exact (registry_ok_serve_all (KB := knowledge_bank) (GD := gradient_descent)
           (Codec := codec) [StartSession_request emb_request] emb_handle Hgd).
Defined.

(** X6 at the session of the tests, followed by a read with create-on-miss
    and a gradient update. *)
Lemma started_session_persists_witness :
  let s1 := (StartSession emb_request KnowledgeBankGrpcServiceImpl_new).2 in
  let s2 :=
    serve_all
      [Lookup_request {| LookupRequest.session_handle := emb_handle;
                         LookupRequest.key := ["first"];
                         LookupRequest.update := true |};
       Update_request {| UpdateRequest.session_handle := emb_handle;
                         UpdateRequest.values := [];
                         UpdateRequest.gradients := [("first", vector [1; 2]%Z)] |}]
      s1 in
  session_exists s2 emb_handle ∧
  StartSessionIfNecessary emb_handle s2 = (Done (), s2).
Proof.
  intros s1 s2.
  refine (started_session_persists (KB := knowledge_bank) (GD := gradient_descent)
            (Codec := codec) emb_request KnowledgeBankGrpcServiceImpl_new
            {| StartSessionResponse.session_handle := emb_handle |} s1 _ _).
  reflexivity.
Defined.

(** X7 at a read under the handle of [emb]: the session of the
    configuration without optimizer is not registered by it. *)
Lemma request_touches_one_session_witness :
  let rq := Lookup_request {| LookupRequest.session_handle := emb_handle;
                              LookupRequest.key := ["first"];
                              LookupRequest.update := true |} in
  let h' := handle_of "emb" store_only_config in
  es_map_ (serve rq KnowledgeBankGrpcServiceImpl_new) !! h' = None ∧
  gd_map_ (serve rq KnowledgeBankGrpcServiceImpl_new) !! h' = None.
Proof.
  intros rq h'.
  destruct (request_touches_one_session (KB := knowledge_bank)
              (GD := gradient_descent) (Codec := codec)
              rq KnowledgeBankGrpcServiceImpl_new h') as [Hes Hgd].
  - vm_compute. discriminate.
  - rewrite Hes, Hgd. split; reflexivity.
Defined.

(** X10 at a store that holds [first]: a read of [first], twice, and of
    [missing] returns a table whose keys are among the requested ones. *)
Lemma Lookup_table_contents_witness :
  let request := {| LookupRequest.session_handle := emb_handle;
                    LookupRequest.key := ["first"; "missing"; "first"];
                    LookupRequest.update := false |} in
  let s := service_with emb_handle ["first"] in
  ∃ response,
    (Lookup request s).1 = Done response ∧
    ∀ k, is_Some (LookupResponse.embedding_table response !! k) →
         k ∈ ["first"; "missing"; "first"].
Proof.
  intros request s.
  destruct (Lookup request s) as [o s'] eqn:Hrun.
  assert (∃ response, o = Done response) as [response ->].
  { apply (f_equal fst) in Hrun. vm_compute in Hrun. subst o. eauto. }
  exists response. split; [reflexivity|].
  destruct (Lookup_table_contents (KB := knowledge_bank) (GD := gradient_descent)
              (Codec := codec) request s response s' Hrun)
    as (s0 & kb0 & _ & _ & _ & Hkeys & _).
  exact Hkeys.
Defined.

(** X11 at the default-constructed configuration, which selects no store:
    the creation step fails and asks the factory once. *)
Lemma store_failure_registers_nothing_witness :
  let h := handle_of "emb" empty_config in
  (StartSessionIfNecessary h KnowledgeBankGrpcServiceImpl_new).1 =
    failed INTERNAL "Creating KnowledgeBank failed." ∧
  KnowledgeBankSize (StartSessionIfNecessary h KnowledgeBankGrpcServiceImpl_new).2 = 0.
Proof.
  intros h.
  destruct (store_failure_registers_nothing (KB := knowledge_bank)
              (GD := gradient_descent) (Codec := codec)
              h KnowledgeBankGrpcServiceImpl_new)
    as (Hrun & _ & _ & _ & Hes & _).
  - reflexivity.
  - vm_compute. reflexivity.
  - rewrite Hrun. split; [reflexivity|].
    cbn [snd]. unfold KnowledgeBankSize. rewrite Hes. reflexivity.
Defined.

(** X12 at a session whose configuration selects the store and no
    optimizer: the gradient update reports the missing optimizer. *)
Lemma missing_optimizer_iff_no_config_witness :
  let h := handle_of "emb" store_only_config in
  let request := {| UpdateRequest.session_handle := h;
                    UpdateRequest.values := [];
                    UpdateRequest.gradients := [("first", vector [1; 2]%Z)] |} in
  (Update request KnowledgeBankGrpcServiceImpl_new).1 =
    failed INTERNAL no_optimizer_message.
Proof.
  intros h request.
  refine (proj2 (missing_optimizer_iff_no_config (KB := knowledge_bank)
                   (GD := gradient_descent) (Codec := codec) [] request
                   (StartSessionIfNecessary h KnowledgeBankGrpcServiceImpl_new).2
                   _ _ _) _).
  - vm_compute. discriminate.
  - discriminate.
  - reflexivity.
  - vm_compute. reflexivity.
Defined.

(** X13 at the session of the tests: two vectors written and read back. *)
Lemma Update_then_Lookup_witness :
  let values := [("first", vector [1; 2]%Z); ("second", vector [3; 4]%Z)] in
  let request := {| UpdateRequest.session_handle := emb_handle;
                    UpdateRequest.values := values;
                    UpdateRequest.gradients := [] |} in
  let s := (StartSession emb_request KnowledgeBankGrpcServiceImpl_new).2 in
  (Update request s).1 = Done UpdateResponse.Build_t ∧
  (Lookup {| LookupRequest.session_handle := emb_handle;
             LookupRequest.key := ["first"; "second"];
             LookupRequest.update := false |} (Update request s).2).1 =
    Done {| LookupResponse.embedding_table := list_to_map values |}.
Proof.
  intros values request s.
  destruct (Update_then_Lookup (KB := knowledge_bank) (GD := gradient_descent)
              (Codec := codec) request s
              {| kb_dimension := 2; embedding_data := ∅ |})
    as [HUpdate HLookup].
  - vm_compute. discriminate.
  - discriminate.
  - reflexivity.
  - split; [vm_compute; eauto|]. intros _. vm_compute. eauto.
  - vm_compute. reflexivity.
  - apply (bool_decide_unpack _). vm_compute. exact I.
  - vm_compute. reflexivity.
  - rewrite HUpdate. split; [reflexivity|exact HLookup].
Defined.

End CoverageFixture.
